(** * mcp-report-generator: the CSV generator and PostgreSQL query servers

    A shallow embedding of
      - the csv-generator server (tool create_fromjson_tofs),
      - postgresql.ts (PostgreSQL.queryAsync),
      - the postgres server (tools postgres_run_query and
        postgres_save_query_result, and the listing of the table schema
        resources),
      - the postgres-query server (tools ping, list_schemas, list_tables,
        describe_table, describe_tables and query),
    with the library calls the handlers rest on, [stringify] of
    csv-stringify, [join] of node:path and [createWriteStream] of node:fs,
    written out for the options and arguments the handlers pass.  Logging is
    left out, and so are the start of the process (environment, connection
    pool) and the registration of the tools. *)

From stdpp Require Import gmap strings list pretty.
From Stdlib Require Import Ascii String.

Local Open Scope string_scope.
Local Open Scope list_scope.

(** ** Strings *)

Module Str.

Definition empty : string := EmptyString.
Definition dquote : ascii := ascii_of_nat 34.
Definition comma : ascii := ascii_of_nat 44.
Definition newline : ascii := ascii_of_nat 10.
Definition slash : ascii := ascii_of_nat 47.
Definition carriage_return : ascii := ascii_of_nat 13.
Definition period : ascii := ascii_of_nat 46.
Definition bracket_open : ascii := ascii_of_nat 91.
Definition bracket_close : ascii := ascii_of_nat 93.

Definition of_char (c : ascii) : string := String c EmptyString.

Definition is_empty (s : string) : bool :=
  match s with EmptyString => true | String _ _ => false end.

(** [s.indexOf(c) >= 0] for a one-character needle. *)
Fixpoint mem (c : ascii) (s : string) : bool :=
  match s with
  | EmptyString => false
  | String d s' => if Ascii.eqb c d then true else mem c s'
  end.

(** [s.replace(new RegExp(c, 'g'), by)] for a one-character pattern. *)
Fixpoint replace_all (c : ascii) (by_ : string) (s : string) : string :=
  match s with
  | EmptyString => EmptyString
  | String d s' =>
      (if Ascii.eqb c d then by_ else of_char d) +:+ replace_all c by_ s'
  end.

(** [s.split(c)]: the pieces between the occurrences of [c]. *)
Fixpoint split_go (c : ascii) (cur : string) (s : string) : list string :=
  match s with
  | EmptyString => [cur]
  | String d s' =>
      if Ascii.eqb c d then cur :: split_go c EmptyString s'
      else split_go c (cur +:+ of_char d) s'
  end.

Definition split (c : ascii) (s : string) : list string :=
  split_go c EmptyString s.

(** [parts.join(sep)]. *)
Fixpoint join (sep : string) (parts : list string) : string :=
  match parts with
  | [] => EmptyString
  | [p] => p
  | p :: ps => p +:+ sep +:+ join sep ps
  end.

Definition first_char (s : string) : option ascii :=
  match s with EmptyString => None | String c _ => Some c end.

Fixpoint last_char (s : string) : option ascii :=
  match s with
  | EmptyString => None
  | String c EmptyString => Some c
  | String _ s' => last_char s'
  end.

(** [s.slice(0, n)]. *)
Fixpoint take (n : nat) (s : string) : string :=
  match n, s with
  | S n', String c s' => String c (take n' s')
  | _, _ => EmptyString
  end.

Fixpoint starts_with (p s : string) : bool :=
  match p, s with
  | EmptyString, _ => true
  | String a p', String b s' => if Ascii.eqb a b then starts_with p' s' else false
  | String _ _, EmptyString => false
  end.

End Str.

(** ** node:path, POSIX flavour

    [join] concatenates its non-empty arguments with a slash and normalizes
    the result: empty and [.] segments go, a [..] segment removes the
    segment before it (or stays, in a relative path that has nothing left to
    remove), a trailing slash is kept. *)

Module Path.

Definition dot : string := Str.of_char (ascii_of_nat 46).
Definition dotdot : string := dot +:+ dot.
Definition sep : string := Str.of_char Str.slash.

(** [normalizeString]: [res] holds the segments kept so far, last one
    first. *)
Fixpoint normalizeSegments (allowAboveRoot : bool) (res : list string)
    (segs : list string) : list string :=
  match segs with
  | [] => rev res
  | seg :: segs' =>
      if Str.is_empty seg || String.eqb seg dot then
        normalizeSegments allowAboveRoot res segs'
      else if String.eqb seg dotdot then
        match res with
        | top :: res' =>
            if String.eqb top dotdot
            then normalizeSegments allowAboveRoot (dotdot :: res) segs'
            else normalizeSegments allowAboveRoot res' segs'
        | [] =>
            if allowAboveRoot
            then normalizeSegments allowAboveRoot [dotdot] segs'
            else normalizeSegments allowAboveRoot [] segs'
        end
      else normalizeSegments allowAboveRoot (seg :: res) segs'
  end.

Definition is_slash (o : option ascii) : bool :=
  match o with Some c => Ascii.eqb c Str.slash | None => false end.

Definition normalize (path : string) : string :=
  if Str.is_empty path then dot
  else
    let isAbsolute := is_slash (Str.first_char path) in
    let trailingSeparator := is_slash (Str.last_char path) in
    let p := Str.join sep
               (normalizeSegments (negb isAbsolute) [] (Str.split Str.slash path)) in
    if Str.is_empty p then
      if isAbsolute then sep
      else if trailingSeparator then dot +:+ sep else dot
    else
      let p := if trailingSeparator then p +:+ sep else p in
      if isAbsolute then sep +:+ p else p.

Definition join (args : list string) : string :=
  let joined :=
    fold_left
      (fun (joined : option string) (arg : string) =>
         if Str.is_empty arg then joined
         else match joined with
              | None => Some arg
              | Some j => Some (j +:+ sep +:+ arg)
              end)
      args None in
  match joined with
  | None => dot
  | Some j => normalize j
  end.

(** [p] lies under the directory [root]: it is [root] itself or starts
    with [root] followed by a slash. *)
Definition under (root p : string) : bool :=
  String.eqb p root || Str.starts_with (root +:+ sep) p.

End Path.

(** ** Dates

    A [Date] is carried by the number it was made from: [new Date(time)]
    has the time value [time], in milliseconds since the epoch, when
    [|time| <= 8.64e15], and is an invalid date otherwise. *)

Module JsDate.

Local Open Scope Z_scope.

Definition msPerDay : Z := 86400000.
Definition maxTime : Z := 8640000000000000.

Definition valid (time : Z) : bool := Z.leb (Z.abs time) maxTime.

(** The last [width] decimal digits of [n], zeros in front. *)
Fixpoint digits (width : nat) (n : Z) : string :=
  match width with
  | O => EmptyString
  | S width' =>
      (digits width' (n / 10)
       +:+ Str.of_char (ascii_of_nat (48 + Z.to_nat (n mod 10))))%string
  end.

(** Year, month (1 to 12) and day of the month of a day number, in the
    proleptic Gregorian calendar, day 0 being 1970-01-01. *)
Definition civil (day : Z) : Z * Z * Z :=
  let z := day + 719468 in
  let era := z / 146097 in
  let doe := z - era * 146097 in
  let yoe := (doe - doe / 1460 + doe / 36524 - doe / 146096) / 365 in
  let doy := doe - (365 * yoe + yoe / 4 - yoe / 100) in
  let mp := (5 * doy + 2) / 153 in
  let d := doy - (153 * mp + 2) / 5 + 1 in
  let m := if Z.ltb mp 10 then mp + 3 else mp - 9 in
  let y := yoe + era * 400 + (if Z.leb m 2 then 1 else 0) in
  (y, m, d).

(** Four digits for the years 0 to 9999, a sign and six digits otherwise. *)
Definition year_text (y : Z) : string :=
  if Z.leb 0 y && Z.leb y 9999 then digits 4 y
  else ((if Z.ltb y 0 then "-" else "+") +:+ digits 6 (Z.abs y))%string.

(** [date.toISOString()] on a valid date: YYYY-MM-DDTHH:mm:ss.sssZ. *)
Definition toISOString (time : Z) : string :=
  let day := time / msPerDay in
  let ms := time mod msPerDay in
  let '(y, m, d) := civil day in
  (year_text y +:+ "-" +:+ digits 2 m +:+ "-" +:+ digits 2 d
   +:+ "T" +:+ digits 2 (ms / 3600000)
   +:+ ":" +:+ digits 2 (ms / 60000 mod 60)
   +:+ ":" +:+ digits 2 (ms / 1000 mod 60)
   +:+ "." +:+ digits 3 (ms mod 1000) +:+ "Z")%string.

End JsDate.

(** ** JavaScript values of a row

    A row is a plain object: its own keys, in the order [Object.keys] lists
    them, each with a value.  A number is carried by the text [String(v)]
    gives for it, a [Date] by the number it was made from, a function by
    nothing, and any other object or array by its [JSON.stringify] text,
    which is all the stringifier ever writes of them. *)

Inductive Value : Type :=
  | VUndefined
  | VNull
  | VString (s : string)
  | VNumber (repr : string)
  | VBoolean (b : bool)
  | VDate (time : Z)
  | VObject (json : string)
  | VFunction.

#[global] Instance Value_eq_dec : EqDecision Value.
Proof. solve_decision. Defined.

Definition Row : Type := list (string * Value).

Definition keys (row : Row) : list string := row.*1.

(** The value of the row's own property [key], if it has one. *)
Fixpoint own (row : Row) (key : string) : option Value :=
  match row with
  | [] => None
  | (k, v) :: row' => if String.eqb k key then Some v else own row' key
  end.

(** The names every plain object answers to through [Object.prototype]. *)
Definition method_names : list string :=
  [ "constructor"; "hasOwnProperty"; "isPrototypeOf"; "propertyIsEnumerable";
    "toLocaleString"; "toString"; "valueOf";
    "__defineGetter__"; "__defineSetter__";
    "__lookupGetter__"; "__lookupSetter__" ].

(** [row[key]] for a key the row does not own: one of the inherited
    methods, the prototype itself (an object with no enumerable property)
    under [__proto__], [undefined] under any other name. *)
Definition inherited (key : string) : Value :=
  if bool_decide (key ∈ method_names) then VFunction
  else if String.eqb key "__proto__" then VObject "{}"
  else VUndefined.

(** csv-stringify reads a cell with [get(record, key)], lodash's: a key
    that holds a dot, or an opening bracket with a closing one somewhere
    after it, reads as a path of property names, unless the record has it
    as a property. *)
Fixpoint bracketed (key : string) : bool :=
  match key with
  | EmptyString => false
  | String c key' =>
      if Ascii.eqb c Str.bracket_open
      then Str.mem Str.bracket_close key' || bracketed key'
      else bracketed key'
  end.

Definition is_deep (key : string) : bool :=
  Str.mem Str.period key || bracketed key.

(** Where a key read as a path leads to from a row: the library's loop
    [object = object[path[i]]] over the names in the key.  It descends into
    the values of the row, of which only the JSON text is kept here, so it
    is taken as given. *)
Definition Walk : Type := Row → string → Value.

(** [get(record, key)]. *)
Definition get (walk : Walk) (row : Row) (key : string) : Value :=
  match own row key with
  | Some v => v
  | None => if is_deep key then walk row key else inherited key
  end.

(** ** csv-stringify

    The stringifier as the library runs it on object records, with the
    delimiter, quote, escape and record delimiter at the values the handlers
    leave or set them to (comma, double quote, double quote, line feed),
    no [columns] option, and [bom] and [eof] at their defaults.  The field
    options the library branches on are kept. *)

Module Csv.

Record Options : Type := {
  header : bool;
  quoted : bool;
  quoted_empty : option bool;
  quoted_string : bool
}.

Definition quote : string := Str.of_char Str.dquote.
Definition escape : string := Str.of_char Str.dquote.
Definition delimiter : string := Str.of_char Str.comma.
Definition record_delimiter : string := Str.of_char Str.newline.

(** What [__cast] returns for a field: a text, the field as it is, or the
    error a cast threw. *)
Inductive Cast : Type :=
  | Text (value : string)
  | AsIs
  | Throws.

(** [__cast] with the default casts, [date] overridden by the handlers'
    [(value) => value.toISOString()], which throws a RangeError on an
    invalid date.  A value that is no string, number, boolean or object
    ([null], [undefined], a function) is handed on as it is. *)
Definition cast (field : Value) : Cast :=
  match field with
  | VString s => Text s
  | VNumber repr => Text repr
  | VBoolean b => Text (if b then "1" else EmptyString)
  | VDate time =>
      if JsDate.valid time then Text (JsDate.toISOString time) else Throws
  | VObject json => Text json
  | VNull | VUndefined | VFunction => AsIs
  end.

Definition is_true (o : option bool) : bool :=
  match o with Some true => true | _ => false end.

Definition is_false (o : option bool) : bool :=
  match o with Some false => true | _ => false end.

(** A field cast to [value], the three branches of the library's
    [stringify]: the empty string of an empty string field, a non-empty
    text, anything else.  [is_string]: [typeof field === 'string']. *)
Definition write_text (o : Options) (is_string : bool) (value : string) : string :=
  match value with
  | EmptyString =>
      if is_string then
        let shouldQuote :=
          is_true (quoted_empty o)
          || (quoted_string o && negb (is_false (quoted_empty o))) in
        if shouldQuote then quote +:+ quote else EmptyString
      else if is_true (quoted_empty o) then quote +:+ quote
      else EmptyString
  | _ =>
      let containsdelimiter := Str.mem Str.comma value in
      let containsQuote := Str.mem Str.dquote value in
      let containsRecordDelimiter := Str.mem Str.newline value in
      let containsLinebreak :=
        Str.mem Str.carriage_return value || Str.mem Str.newline value in
      let quotedString := quoted_string o && is_string in
      let shouldQuote :=
        containsQuote || containsdelimiter || containsRecordDelimiter
        || containsLinebreak || quoted o || quotedString in
      let value :=
        if containsQuote
        then Str.replace_all Str.dquote (escape +:+ quote) value
        else value in
      if shouldQuote then quote +:+ value +:+ quote else value
  end.

Definition is_string_field (field : Value) : bool :=
  match field with VString _ => true | _ => false end.

(** One field of a record.  [None]: the library returns an error, for a
    cast that threw and for a value that is neither a string nor [null]
    nor [undefined] once cast. *)
Definition stringify_field (o : Options) (field : Value) : option string :=
  match cast field with
  | Text value => Some (write_text o (is_string_field field) value)
  | AsIs =>
      match field with
      | VFunction => None
      | _ => Some (if is_true (quoted_empty o) then quote +:+ quote else EmptyString)
      end
  | Throws => None
  end.

(** A record: its fields under the discovered columns, joined by the
    delimiter; the first error ends it. *)
Definition stringify_fields (o : Options) (fields : list Value) : option string :=
  Str.join delimiter <$> mapM (stringify_field o) fields.

Definition stringify_record (walk : Walk) (o : Options) (columns : list string)
    (chunk : Row) : option string :=
  stringify_fields o (get walk chunk <$> columns).

(** The header line: the column names, which are strings and which the
    default cast of a string hands on unchanged. *)
Definition headers (o : Options) (columns : list string) : string :=
  if header o
  then Str.join delimiter (write_text o true <$> columns) +:+ record_delimiter
  else EmptyString.

(** The Transform stream: the columns once discovered, the number of
    records emitted, what was pushed downstream, and whether an error has
    stopped it. *)
Record Stringifier : Type := {
  options : Options;
  columns : option (list string);
  records : nat;
  pushed : string;
  stop : bool
}.

Definition stringify (o : Options) : Stringifier :=
  {| options := o; columns := None; records := 0; pushed := EmptyString;
     stop := false |}.

(** [stringifier.write(chunk)]: the first record fixes the columns to its
    keys and emits the header line; a record that cannot be stringified
    stops the stream, after which nothing more is transformed. *)
Definition write (walk : Walk) (st : Stringifier) (chunk : Row) : Stringifier :=
  if stop st then st
  else
    let o := options st in
    let cols :=
      match columns st with
      | Some cols => cols
      | None => keys chunk
      end in
    let head := if Nat.eqb (records st) 0 then headers o cols else EmptyString in
    match stringify_record walk o cols chunk with
    | Some chunk_string =>
        {| options := o;
           columns := Some cols;
           records := S (records st);
           pushed := pushed st +:+ head +:+ chunk_string +:+ record_delimiter;
           stop := false |}
    | None =>
        {| options := o;
           columns := Some cols;
           records := records st;
           pushed := pushed st +:+ head;
           stop := true |}
    end.

(** [stringifier.end()]: with no record written there are no columns, and
    nothing is emitted. *)
Definition end_ (st : Stringifier) : Stringifier :=
  if stop st then st
  else if Nat.eqb (records st) 0 then
    match columns st with
    | Some cols =>
        {| options := options st; columns := columns st; records := 0;
           pushed := pushed st +:+ headers (options st) cols;
           stop := false |}
    | None => st
    end
  else st.

(** How [contents.forEach((row) => stringifier.write(row));
    stringifier.end()] leaves the stringifier: ended, with everything it
    pushed downstream, or stopped by an error, which it emits. *)
Inductive Run : Type :=
  | Ended (data : string)
  | Stopped (data : string).

Definition run (walk : Walk) (o : Options) (contents : list Row) : Run :=
  let st := end_ (fold_left (write walk) contents (stringify o)) in
  if stop st then Stopped (pushed st) else Ended (pushed st).

(** The line of a row under the columns, when every cell can be written. *)
Definition record_line (walk : Walk) (o : Options) (columns : list string)
    (row : Row) : option string :=
  (fun chunk_string => chunk_string +:+ record_delimiter)
    <$> stringify_record walk o columns row.

(** The data lines of a file as the stringifier lays them out, when every
    row can be written. *)
Definition data_lines (walk : Walk) (o : Options) (contents : list Row)
    : option (list string) :=
  match contents with
  | [] => Some []
  | first :: _ => mapM (record_line walk o (keys first)) contents
  end.

Definition header_line (o : Options) (contents : list Row) : string :=
  match contents with
  | [] => EmptyString
  | first :: _ => headers o (keys first)
  end.

End Csv.

(** The options both file-writing handlers pass:
    header, quoted and quoted_empty all true, the escape character set to
    the double quote, and dates cast by [(value) => value.toISOString()]. *)
Definition handler_options : Csv.Options :=
  {| Csv.header := true;
     Csv.quoted := true;
     Csv.quoted_empty := Some true;
     Csv.quoted_string := false |}.

(** The walk that finds nothing at the end of any path. *)
Definition no_walk : Walk := fun _ _ => VUndefined.

Definition sample_rows : list Row :=
  [ [("id", VNumber "1"); ("title", VString "a, b"); ("seen", VNull)];
    [("id", VNumber "2"); ("title", VString EmptyString); ("seen", VDate 1704164645000)];
    [("id", VNumber "3"); ("title", VString (Str.of_char Str.dquote +:+ "x")); ("seen", VBoolean false)] ].

(** ** Tool results *)

(** [CallToolResult]: the text of its one content item, the structured
    content when the handler sets it, and [isError] (absent reads as
    false). *)
Record CallToolResult (S : Type) : Type := {
  content : string;
  structuredContent : option S;
  isError : bool
}.
Arguments content {S} _.
Arguments structuredContent {S} _.
Arguments isError {S} _.

(** ** The file system

    [files] maps a path to the content of the file there; [denied] lists the
    paths a write stream cannot be opened at, each with the message of the
    error the stream emits (missing directory, no permission, ...);
    [limits] lists the paths whose file cannot grow past some length, each
    with that length and the message of the error a longer write meets (no
    space left, quota, ...). *)
Record FS : Type := {
  files : gmap string string;
  denied : gmap string string;
  limits : gmap string (nat * string)
}.

(** The file system together with the paths write streams were opened at,
    oldest first, failed opens included. *)
Record Io : Type := {
  disk : FS;
  opened : list string
}.

Inductive StreamEvent : Type :=
  | Finish
  | Error (message : string).

Definition put (path : string) (data : string) (fs : FS) : FS :=
  {| files := <[path := data]> (files fs);
     denied := denied fs;
     limits := limits fs |}.

(** A write stream: the path it writes at, and the error its open met, if
    it met one. *)
Record WriteStream : Type := {
  stream_path : string;
  open_error : option string
}.

(** [createWriteStream(path)], with its default flag w: the file is
    created, or cut to nothing, unless the open fails. *)
Definition createWriteStream (path : string) (io : Io) : WriteStream * Io :=
  match denied (disk io) !! path with
  | Some message =>
      ({| stream_path := path; open_error := Some message |},
       {| disk := disk io; opened := opened io ++ [path] |})
  | None =>
      ({| stream_path := path; open_error := None |},
       {| disk := put path EmptyString (disk io);
          opened := opened io ++ [path] |})
  end.

(** [data] piped into the stream until its end, and the event the stream
    then emits: the error of its open; or, the file holding as much of
    [data] as it can grow to, the error of the write that did not fit;
    or, the file holding [data], its finish. *)
Definition pipe_end (stream : WriteStream) (data : string) (io : Io)
    : StreamEvent * Io :=
  match open_error stream with
  | Some message => (Error message, io)
  | None =>
      match limits (disk io) !! stream_path stream with
      | Some (room, message) =>
          if Nat.ltb room (String.length data)
          then (Error message,
                {| disk := put (stream_path stream) (Str.take room data) (disk io);
                   opened := opened io |})
          else (Finish,
                {| disk := put (stream_path stream) data (disk io);
                   opened := opened io |})
      | None =>
          (Finish,
           {| disk := put (stream_path stream) data (disk io);
              opened := opened io |})
      end
  end.

(** ** Asynchronous code

    An [async] function runs against a state and either fulfils with a value
    or rejects with the value thrown; or the process dies under it, of an
    error no one listens for, and its promise is never settled. *)

Record JsError : Type := {
  err_name : string;
  err_message : string
}.

(** [Error.prototype.toString], which a template literal applies. *)
Definition error_toString (e : JsError) : string :=
  if Str.is_empty (err_name e) then err_message e
  else if Str.is_empty (err_message e) then err_name e
  else err_name e +:+ ": " +:+ err_message e.

Inductive Completion (A : Type) : Type :=
  | Fulfilled (a : A)
  | Rejected (e : JsError)
  | Dies.
Arguments Fulfilled {A} _.
Arguments Rejected {A} _.
Arguments Dies {A}.

Definition Async (St A : Type) : Type := St → Completion A * St.

(** The structured content of a tool call that fulfilled. *)
Definition structuredContent_of {S} (c : Completion (CallToolResult S)) : option S :=
  match c with
  | Fulfilled result => structuredContent result
  | Rejected _ | Dies => None
  end.

Definition ret {St A} (a : A) : Async St A := fun s => (Fulfilled a, s).

Definition bind {St A B} (m : Async St A) (k : A → Async St B) : Async St B :=
  fun s =>
    match m s with
    | (Fulfilled a, s') => k a s'
    | (Rejected e, s') => (Rejected e, s')
    | (Dies, s') => (Dies, s')
    end.

Definition try_catch {St A} (body : Async St A) (handler : JsError → Async St A)
    : Async St A :=
  fun s =>
    match body s with
    | (Fulfilled a, s') => (Fulfilled a, s')
    | (Rejected e, s') => handler e s'
    | (Dies, s') => (Dies, s')
    end.

Notation "'let*' x ':=' 'await' m 'in' k" := (bind m (fun x => k))
  (at level 10, x name, m at level 100, k at level 200).

(** ** csv-generator: tool create_fromjson_tofs *)

Module CsvGenerator.

Record createFromJsonToFSInput : Type := {
  filename : string;
  path : string;
  contents : list Row
}.

Record createFromJsonToFSOutput : Type := {
  fullPath : string;
  rowCount : nat
}.

(** The promise listens to the write stream only: it resolves on its
    finish and on its error.  An error of the stringifier has no listener,
    and the process dies of it, the stream opened and nothing written. *)
Definition createFromJsonToFSHandlerAsync (walk : Walk)
    (input : createFromJsonToFSInput)
    : Async Io (CallToolResult createFromJsonToFSOutput) :=
  fun io =>
    let fullPath := Path.join [path input; filename input] in
    let '(writableStream, io) := createWriteStream fullPath io in
    match Csv.run walk handler_options (contents input) with
    | Csv.Stopped _ => (Dies, io)
    | Csv.Ended data =>
        match pipe_end writableStream data io with
        | (Finish, io') =>
            (Fulfilled
               {| content := "Created " +:+ Csv.quote +:+ filename input +:+ Csv.quote
                             +:+ " file with " +:+ pretty (List.length (contents input))
                             +:+ " rows";
                  structuredContent :=
                    Some {| fullPath := fullPath;
                            rowCount := List.length (contents input) |};
                  isError := false |}, io')
        | (Error message, io') =>
            (Fulfilled
               {| content := "Error creating file: " +:+ message;
                  structuredContent := None;
                  isError := true |}, io')
        end
    end.

End CsvGenerator.

(** ** postgres/src/postgresql.ts *)

Module PostgreSQL.

Section Pool.

Context {T : Type}.

(** What [pool.query] settles to: the result's [rows] (possibly absent),
    or a rejection. *)
Inductive QueryOutcome : Type :=
  | Resolves (rows : option (list T))
  | Rejects (err : JsError).

(** The pool with the database behind it: [answer n q vs] is what the
    database does with statement [q] and values [vs] when [n] statements
    ran before it; [executed] lists the statements run so far. *)
Record Pool : Type := {
  answer : nat → string → option (list Value) → QueryOutcome;
  executed : list (string * option (list Value))
}.

Definition pool_query (text : string) (values : option (list Value))
    : Async Pool (option (list T)) :=
  fun p =>
    let p' := {| answer := answer p;
                 executed := executed p ++ [(text, values)] |} in
    match answer p (List.length (executed p)) text values with
    | Resolves rows => (Fulfilled rows, p')
    | Rejects err => (Rejected err, p')
    end.

Inductive Message : Type :=
  | Text (s : string)
  | Thrown (err : JsError).

(** [`${result.message}`] *)
Definition show (m : Message) : string :=
  match m with
  | Text s => s
  | Thrown err => error_toString err
  end.

Record QueryResult : Type := {
  error : option bool;
  message : Message;
  data : list T
}.

(** [if (result.error)] *)
Definition failed (r : QueryResult) : bool :=
  match error r with Some true => true | _ => false end.

Definition queryAsync (parameterizedQuery : string)
    (values : option (list Value)) : Async Pool QueryResult :=
  try_catch
    (let* res := await pool_query parameterizedQuery values in
     ret {| error := None; message := Text "success"; data := default [] res |})
    (fun err => ret {| error := Some true; message := Thrown err; data := [] |}).

End Pool.

Arguments QueryOutcome : clear implicits.
Arguments Pool : clear implicits.
Arguments QueryResult : clear implicits.

End PostgreSQL.

(** Running a pool computation, or a file-system action, in a state that
    holds both. *)
Definition on_pool {P A} (m : Async P A) : Async (P * Io) A :=
  fun s =>
    match m (fst s) with
    | (c, p') => (c, (p', snd s))
    end.

Definition on_io {P A} (m : Async Io A) : Async (P * Io) A :=
  fun s =>
    match m (snd s) with
    | (c, io') => (c, (fst s, io'))
    end.

(** An SQL identifier in double quotes. *)
Definition ident (s : string) : string := Csv.quote +:+ s +:+ Csv.quote.

(** ** [String.prototype.replace] with a string pattern

    The first occurrence of the pattern is replaced; in the replacement a
    dollar sign followed by a dollar sign, an ampersand, a backquote or a
    quote stands for a dollar sign, the matched text, the text before the
    match and the text after it.  A string pattern has no capture groups, so
    a dollar sign before anything else stands for itself. *)

Module JsString.

Definition dollar : ascii := ascii_of_nat 36.
Definition ampersand : ascii := ascii_of_nat 38.
Definition backquote : ascii := ascii_of_nat 96.
Definition quote : ascii := ascii_of_nat 39.

Fixpoint drop (n : nat) (s : string) : string :=
  match n, s with
  | 0, _ => s
  | S n', String _ s' => drop n' s'
  | S _, EmptyString => EmptyString
  end.

(** [s.indexOf(pattern)], as the text before the first occurrence and the
    text after it. *)
Fixpoint split_first (pattern s : string) : option (string * string) :=
  if Str.starts_with pattern s then Some (EmptyString, drop (String.length pattern) s)
  else match s with
       | EmptyString => None
       | String c s' =>
           match split_first pattern s' with
           | Some (before, after) => Some (String c before, after)
           | None => None
           end
       end.

(** [GetSubstitution] without captures. *)
Fixpoint substitution (matched before after : string) (template : string) : string :=
  match template with
  | EmptyString => EmptyString
  | String c rest =>
      if Ascii.eqb c dollar then
        match rest with
        | String d rest' =>
            if Ascii.eqb d dollar then String dollar (substitution matched before after rest')
            else if Ascii.eqb d ampersand then matched +:+ substitution matched before after rest'
            else if Ascii.eqb d backquote then before +:+ substitution matched before after rest'
            else if Ascii.eqb d quote then after +:+ substitution matched before after rest'
            else String dollar (substitution matched before after rest)
        | EmptyString => String dollar EmptyString
        end
      else String c (substitution matched before after rest)
  end.

Definition replace (s pattern replacement : string) : string :=
  match split_first pattern s with
  | Some (before, after) =>
      before +:+ substitution pattern before after replacement +:+ after
  | None => s
  end.

End JsString.

(** ** The postgres server: tools postgres_run_query and
    postgres_save_query_result *)

Module Postgres.

Import PostgreSQL.

Record runQueryOutput : Type := {
  rowCount : nat;
  rows : list Row
}.

Record saveQueryResultInput : Type := {
  parameterizedQuery : string;
  values : list Value;
  filename : string;
  path : string
}.

Record saveQueryResultOutput : Type := {
  sq_rowCount : nat;
  fullPath : string
}.

Definition runQueryHandlerAsync (parameterizedQuery : string)
    (values : list Value) : Async (Pool Row) (CallToolResult runQueryOutput) :=
  let structuredContent := {| rowCount := 0; rows := [] |} in
  let* result := await queryAsync parameterizedQuery (Some values) in
  if failed result then
    ret {| content := "Error querying database: " +:+ show (message result);
           structuredContent := None;
           isError := true |}
  else if Nat.eqb (List.length (data result)) 0 then
    ret {| content := "No result found";
           structuredContent := Some structuredContent;
           isError := false |}
  else
    ret {| content := "Found " +:+ pretty (List.length (data result))
                      +:+ " results from the query";
           structuredContent :=
             Some {| rowCount := List.length (data result); rows := data result |};
           isError := false |}.

Definition saveQueryResultHandlerAsync (walk : Walk) (input : saveQueryResultInput)
    : Async (Pool Row * Io) (CallToolResult saveQueryResultOutput) :=
  let* result := await on_pool (queryAsync (parameterizedQuery input)
                                            (Some (values input))) in
  if failed result then
    ret {| content := "Error querying database: " +:+ show (message result);
           structuredContent := None;
           isError := true |}
  else if Nat.eqb (List.length (data result)) 0 then
    ret {| content := "No CSV file generated because no result was found";
           structuredContent := Some {| sq_rowCount := 0; fullPath := EmptyString |};
           isError := false |}
  else
    on_io (fun io =>
      let fullPath := Path.join [path input; filename input] in
      let '(writableStream, io) := createWriteStream fullPath io in
      match Csv.run walk handler_options (data result) with
      | Csv.Stopped _ => (Dies, io)
      | Csv.Ended text =>
          match pipe_end writableStream text io with
          | (Finish, io') =>
              (Fulfilled
                 {| content := "Created " +:+ Csv.quote +:+ filename input +:+ Csv.quote
                               +:+ " file with " +:+ pretty (List.length (data result))
                               +:+ " rows";
                    structuredContent :=
                      Some {| sq_rowCount := List.length (data result);
                              fullPath := fullPath |};
                    isError := false |}, io')
          | (Error err, io') =>
              (Fulfilled
                 {| content := "Error creating file: " +:+ err;
                    structuredContent := None;
                    isError := true |}, io')
          end
      end).

(** The resource list of the table schemas, one resource per schema. *)

Definition resTableSchemaLabel : string := "table_schema".
Definition resTableSchemaUri : string := "postgres://schemas/{schema}/tables".
Definition resTableSchemaTitle : string := "Table Schema".
Definition resTableSchemaDescription : string :=
  "Describes the table schema of the database".

Record SchemaRow : Type := {
  schema_name : string
}.

Record Resource : Type := {
  res_name : string;
  res_title : string;
  res_description : string;
  res_uri : string
}.

Definition listSchemas_query : string :=
  "SELECT " +:+ ident "schema_name" +:+ " FROM information_schema."
  +:+ ident "schemata"
  +:+ " WHERE " +:+ ident "schema_name" +:+ " NOT LIKE 'pg_%'"
  +:+ " AND " +:+ ident "schema_name" +:+ " <> 'information_schema'".

Definition resource_of (value : SchemaRow) : Resource :=
  {| res_name := resTableSchemaLabel +:+ "_" +:+ schema_name value;
     res_title := resTableSchemaTitle +:+ ": " +:+ schema_name value;
     res_description := resTableSchemaDescription +:+ " under '"
                        +:+ schema_name value +:+ "' schema";
     res_uri := JsString.replace resTableSchemaUri "{schema}" (schema_name value) |}.

Definition listTableSchemaUrisAsync : Async (Pool SchemaRow) (list Resource) :=
  let* result := await queryAsync listSchemas_query None in
  if failed result then ret []
  else ret (resource_of <$> data result).

End Postgres.

(** ** postgres-query/src/mcp-server.ts: tools describe_table,
    describe_tables and query *)

Module PostgresQuery.

Import PostgreSQL.

(** The schema a tool takes when its caller names none. *)
Module defaults.
Definition listTables_schema : string := "public".
Definition describeTable_schema : string := "public".
Definition describeTables_schema : string := "public".
Definition query_schema : string := "public".
End defaults.

(** [number | null | undefined] *)
Inductive OptNumber : Type :=
  | Absent
  | Null
  | Num (n : Z).

Module Column.
Record t : Type := {
  name : string;
  type : string;
  required : bool;
  identity : bool;
  char_max_length : OptNumber;
  num_precision : OptNumber;
  num_precision_radix : OptNumber
}.
End Column.

Module Table.
Record t : Type := {
  schema : string;
  name : string;
  columns : list Column.t
}.
End Table.

(** A row of the catalog query of describe_table. *)
Module ColumnRow.
Record t : Type := {
  column_name : string;
  data_type : string;
  identity : bool;
  required : bool;
  character_maximum_length : OptNumber;
  numeric_precision : OptNumber;
  numeric_precision_radix : OptNumber
}.
End ColumnRow.

(** A row of the catalog query of describe_tables. *)
Module CatalogRow.
Record t : Type := {
  table_schema : string;
  table_name : string;
  column_name : string;
  data_type : string;
  identity : bool;
  required : bool;
  character_maximum_length : OptNumber;
  numeric_precision : OptNumber;
  numeric_precision_radix : OptNumber
}.
End CatalogRow.

Record describeTableOutput : Type := {
  dt_schema : string;
  dt_table : string;
  dt_columns : list Column.t
}.

Record describeTablesOutput : Type := {
  tables : list Table.t
}.

Record queryOutput : Type := {
  rowCount : nat;
  rows : list Row
}.

Definition select_columns : string :=
  " CASE " +:+ ident "is_identity" +:+ " WHEN 'NO' THEN false ELSE true END AS "
    +:+ ident "identity" +:+ ","
  +:+ " CASE " +:+ ident "is_nullable" +:+ " WHEN 'NO' THEN false ELSE true END AS "
    +:+ ident "required" +:+ ","
  +:+ " " +:+ ident "character_maximum_length" +:+ ", "
    +:+ ident "numeric_precision" +:+ ", " +:+ ident "numeric_precision_radix".

Definition describeTable_query : string :=
  "SELECT " +:+ ident "column_name" +:+ ", " +:+ ident "data_type" +:+ ","
  +:+ select_columns
  +:+ " FROM information_schema." +:+ ident "columns" +:+ " WHERE "
  +:+ ident "table_name" +:+ " = $1 AND " +:+ ident "table_schema" +:+ " = $2;".

Definition describeTables_query : string :=
  "SELECT " +:+ ident "table_schema" +:+ ", " +:+ ident "table_name" +:+ ", "
  +:+ ident "column_name" +:+ ", " +:+ ident "data_type" +:+ ","
  +:+ select_columns
  +:+ " FROM information_schema." +:+ ident "columns" +:+ " WHERE "
  +:+ ident "table_schema" +:+ " = $1 ORDER BY " +:+ ident "table_schema"
  +:+ ", " +:+ ident "table_name" +:+ ";".

Definition describeTableHandlerAsync (table : string) (schema : option string)
    : Async (Pool ColumnRow.t) (CallToolResult describeTableOutput) :=
  let schema := default defaults.describeTable_schema schema in
  let values := [VString table; VString schema] in
  let* result := await queryAsync describeTable_query (Some values) in
  if failed result then
    ret {| content := "Error describing table: " +:+ show (message result);
           structuredContent := None;
           isError := true |}
  else
    let columns :=
      (fun value =>
         {| Column.name := ColumnRow.column_name value;
            Column.type := ColumnRow.data_type value;
            Column.identity := ColumnRow.identity value;
            Column.required := ColumnRow.required value;
            Column.char_max_length := ColumnRow.character_maximum_length value;
            Column.num_precision := ColumnRow.numeric_precision value;
            Column.num_precision_radix := ColumnRow.numeric_precision_radix value |})
        <$> data result in
    ret {| content := "Found " +:+ pretty (List.length (data result))
                      +:+ " columns in the '" +:+ schema +:+ "." +:+ ident table
                      +:+ "' table";
           structuredContent :=
             Some {| dt_schema := schema; dt_table := table; dt_columns := columns |};
           isError := false |}.

(** The column a catalog row describes. *)
Definition column_of (value : CatalogRow.t) : Column.t :=
  {| Column.name := CatalogRow.column_name value;
     Column.type := CatalogRow.data_type value;
     Column.identity := CatalogRow.identity value;
     Column.required := CatalogRow.required value;
     Column.char_max_length := CatalogRow.character_maximum_length value;
     Column.num_precision := CatalogRow.numeric_precision value;
     Column.num_precision_radix := CatalogRow.numeric_precision_radix value |}.

(** [row.schema == value.table_schema && row.name == value.table_name] *)
Definition same_table (value : CatalogRow.t) (row : Table.t) : bool :=
  String.eqb (Table.schema row) (CatalogRow.table_schema value)
  && String.eqb (Table.name row) (CatalogRow.table_name value).

(** [tables.findIndex(pred)], [None] for -1. *)
Fixpoint findIndex {A} (pred : A → bool) (l : list A) : option nat :=
  match l with
  | [] => None
  | x :: l' => if pred x then Some 0 else S <$> findIndex pred l'
  end.

Definition push_column (c : Column.t) (row : Table.t) : Table.t :=
  {| Table.schema := Table.schema row;
     Table.name := Table.name row;
     Table.columns := Table.columns row ++ [c] |}.

(** The body of [result.data.forEach((value) => ...)] on the tables
    gathered so far. *)
Definition group_step (tables : list Table.t) (value : CatalogRow.t)
    : list Table.t :=
  let '(tables, index) :=
    match findIndex (same_table value) tables with
    | Some index => (tables, index)
    | None =>
        let tables := tables ++ [ {| Table.schema := CatalogRow.table_schema value;
                                     Table.name := CatalogRow.table_name value;
                                     Table.columns := [] |} ] in
        (tables, List.length tables - 1)
    end in
  alter (push_column (column_of value)) index tables.

Definition group_tables (data : list CatalogRow.t) : list Table.t :=
  fold_left group_step data [].

(** [new Set(result.data.map((value) => value.table_name)).size] *)
Definition tableCount (data : list CatalogRow.t) : nat :=
  size (list_to_set (CatalogRow.table_name <$> data) : gset string).

Definition describeTablesHandlerAsync (schema : option string)
    : Async (Pool CatalogRow.t) (CallToolResult describeTablesOutput) :=
  let schema := default defaults.describeTables_schema schema in
  let values := [VString schema] in
  let* result := await queryAsync describeTables_query (Some values) in
  if failed result then
    ret {| content := "Error describing tables: " +:+ show (message result);
           structuredContent := None;
           isError := true |}
  else
    ret {| content := "Found " +:+ pretty (tableCount (data result))
                      +:+ " tables in the '" +:+ schema +:+ "' schema";
           structuredContent := Some {| tables := group_tables (data result) |};
           isError := false |}.

Definition queryHandlerAsync (parameterizedQuery : string) (values : list Value)
    (schema : option string) : Async (Pool Row) (CallToolResult queryOutput) :=
  let schema := default defaults.describeTable_schema schema in
  let structuredContent := {| rowCount := 0; rows := [] |} in
  let* result := await queryAsync parameterizedQuery (Some values) in
  if failed result then
    ret {| content := "Error querying database: " +:+ show (message result);
           structuredContent := None;
           isError := true |}
  else if Nat.eqb (List.length (data result)) 0 then
    ret {| content := "No result found";
           structuredContent := Some structuredContent;
           isError := false |}
  else
    ret {| content := "Found " +:+ pretty (List.length (data result))
                      +:+ " results from the query";
           structuredContent :=
             Some {| rowCount := List.length (data result); rows := data result |};
           isError := false |}.


(** The tools ping, list_schemas and list_tables. *)

Record listSchemasOutput : Type := {
  schemas : list string
}.

Record TableRef : Type := {
  ref_schema : string;
  ref_name : string
}.

Record listTablesOutput : Type := {
  lt_tables : list TableRef
}.

Module TableRow.
Record t : Type := {
  table_schema : string;
  table_name : string
}.
End TableRow.

Definition pingHandlerAsync {T : Type} : Async (Pool T) (CallToolResult Empty_set) :=
  let* result := await queryAsync "SELECT 1" None in
  if failed result then
    ret {| content := "Connection failed: " +:+ show (message result);
           structuredContent := None;
           isError := true |}
  else
    ret {| content := "pong"; structuredContent := None; isError := false |}.

Definition listSchemasHandlerAsync
    : Async (Pool Postgres.SchemaRow) (CallToolResult listSchemasOutput) :=
  let* result := await queryAsync Postgres.listSchemas_query None in
  if failed result then
    ret {| content := "Error listing schemas: " +:+ show (message result);
           structuredContent := None;
           isError := true |}
  else
    ret {| content := "Found " +:+ pretty (List.length (data result))
                      +:+ " schemas in the database";
           structuredContent :=
             Some {| schemas := Postgres.schema_name <$> data result |};
           isError := false |}.

Definition listTables_query (schema : string) : string :=
  "SELECT " +:+ ident "table_schema" +:+ ", " +:+ ident "table_name"
  +:+ " FROM information_schema." +:+ ident "tables"
  +:+ " WHERE " +:+ ident "table_type" +:+ " = 'BASE TABLE'"
  +:+ (if Str.is_empty schema then ";"
       else " AND " +:+ ident "table_schema" +:+ " = $1;").

Definition listTables_values (schema : string) : list Value :=
  if Str.is_empty schema then [] else [VString schema].

Definition listTablesHandlerAsync (schema : option string)
    : Async (Pool TableRow.t) (CallToolResult listTablesOutput) :=
  let schema := default defaults.listTables_schema schema in
  let* result := await queryAsync (listTables_query schema)
                                  (Some (listTables_values schema)) in
  if failed result then
    ret {| content := "Error listing tables: " +:+ show (message result);
           structuredContent := None;
           isError := true |}
  else
    ret {| content := "Found " +:+ pretty (List.length (data result))
                      +:+ " tables in the '" +:+ schema +:+ "' schema";
           structuredContent :=
             Some {| lt_tables :=
                       (fun value => {| ref_schema := TableRow.table_schema value;
                                        ref_name := TableRow.table_name value |})
                         <$> data result |};
           isError := false |}.

End PostgresQuery.

(** ** Terms of the properties, and sample inputs *)

Section CalendarTerms.

Local Open Scope Z_scope.

(** The calendar as ECMAScript defines it: leap years, the lengths of the
    months, and the day number of the first day of a year, counted from
    1970-01-01. *)
Definition leap_year (y : Z) : bool :=
  (Z.eqb (y mod 4) 0 && negb (Z.eqb (y mod 100) 0)) || Z.eqb (y mod 400) 0.

Definition days_in_month (y m : Z) : Z :=
  if Z.eqb m 2 then (if leap_year y then 29 else 28)
  else if Z.eqb m 4 || Z.eqb m 6 || Z.eqb m 9 || Z.eqb m 11 then 30
  else 31.

Definition day_from_year (y : Z) : Z :=
  365 * (y - 1970) + (y - 1969) / 4 - (y - 1901) / 100 + (y - 1601) / 400.

(** The days of the months of year [y] before month [m]. *)
Definition days_before_month (y m : Z) : Z :=
  foldr Z.add 0
    ((fun k => if Z.ltb k m then days_in_month y k else 0)
       <$> [1; 2; 3; 4; 5; 6; 7; 8; 9; 10; 11; 12]).

(** The time value of a date and a time of day, in milliseconds since the
    epoch. *)
Definition time_of (y m d h mi s ms : Z) : Z :=
  ((((day_from_year y + days_before_month y m + (d - 1)) * 24 + h) * 60 + mi)
   * 60 + s) * 1000 + ms.

(** A date and a time of day that exist. *)
Definition date_time (y m d h mi s ms : Z) : Prop :=
  1 <= m <= 12 ∧ 1 <= d <= days_in_month y m
  ∧ 0 <= h < 24 ∧ 0 <= mi < 60 ∧ 0 <= s < 60 ∧ 0 <= ms < 1000.

(** The ISO-8601 text of a date and a time of day, in UTC:
    YYYY-MM-DDTHH:mm:ss.sssZ, the year with a sign and six digits when it
    is not one of 0 to 9999. *)
Definition iso_8601 (y m d h mi s ms : Z) : string :=
  (JsDate.year_text y +:+ "-" +:+ JsDate.digits 2 m +:+ "-" +:+ JsDate.digits 2 d
   +:+ "T" +:+ JsDate.digits 2 h +:+ ":" +:+ JsDate.digits 2 mi
   +:+ ":" +:+ JsDate.digits 2 s +:+ "." +:+ JsDate.digits 3 ms +:+ "Z")%string.

(** The date of a day of the 400-year cycle comes out right. *)
Definition cycle_day_ok (doe : Z) : bool :=
  let '(y, m, d) := JsDate.civil (doe - 719468) in
  Z.leb 1 m && Z.leb m 12 && Z.leb 1 d && Z.leb d (days_in_month y m)
  && Z.eqb (day_from_year y + days_before_month y m + (d - 1)) (doe - 719468).

(** [n] numbers in a row, from [from] on. *)
Fixpoint range (n : nat) (from : Z) : list Z :=
  match n with
  | O => []
  | S n' => from :: range n' (from + 1)
  end.

End CalendarTerms.

Section StringifierTerms.

Import Csv.

(** The text the library works on for a field: the cast value, no
    character for [null] and [undefined]; none for a value it turns down,
    an invalid date or a function. *)
Definition field_text (field : Value) : option string :=
  match cast field with
  | Text value => Some value
  | AsIs =>
      match field with
      | VFunction => None
      | _ => Some EmptyString
      end
  | Throws => None
  end.

(** A text with its quotes doubled. *)
Definition esc (text : string) : string :=
  Str.replace_all Str.dquote (escape +:+ quote) text.

(** A text in quotes, its quotes doubled. *)
Definition quoted_text (text : string) : string :=
  quote +:+ Str.replace_all Str.dquote (escape +:+ quote) text +:+ quote.

(** A key the library reads as one property name, and under which a row
    that lacks it gives [undefined]. *)
Definition plain_key (key : string) : Prop :=
  is_deep key = false ∧ (key ∉ method_names) ∧ key ≠ "__proto__".

End StringifierTerms.

Definition empty_fs : FS := {| files := ∅; denied := ∅; limits := ∅ |}.

(** Nothing on disk, no stream opened yet. *)
Definition empty_io : Io := {| disk := empty_fs; opened := [] |}.

(** A write stream opened at [path] and fed [data] until its end. *)
Definition stream_run (path : string) (data : string) (io : Io)
    : StreamEvent * Io :=
  let '(stream, io) := createWriteStream path io in
  pipe_end stream data io.

(** The file at [path] can be opened for writing and can take [data]. *)
Definition writable (path : string) (data : string) (fs : FS) : Prop :=
  denied fs !! path = None
  ∧ ∀ room message,
      limits fs !! path = Some (room, message) → (String.length data ≤ room)%nat.

Section CreateFromJsonTerms.

Import CsvGenerator.

Definition created_text (input : createFromJsonToFSInput) : string :=
  "Created " +:+ Csv.quote +:+ filename input +:+ Csv.quote +:+ " file with "
  +:+ pretty (List.length (contents input)) +:+ " rows".

End CreateFromJsonTerms.

(** A result of 1001 rows, one more than a part may hold. *)
Definition big_contents : list Row := replicate 1001 [("id", VNumber "7")].

Definition big_input : CsvGenerator.createFromJsonToFSInput :=
  {| CsvGenerator.filename := "report.csv";
     CsvGenerator.path := "/srv/out";
     CsvGenerator.contents := big_contents |}.

Section QueryLayerTerms.

Import PostgreSQL.

(** The pool after one more statement. *)
Definition ran {T} (p : Pool T) (text : string) (values : option (list Value))
    : Pool T :=
  {| answer := answer p; executed := executed p ++ [(text, values)] |}.

Definition outcome {T} (p : Pool T) (text : string)
    (values : option (list Value)) : QueryOutcome T :=
  answer p (List.length (executed p)) text values.

End QueryLayerTerms.

(** A database that holds no row for any statement. *)
Definition empty_pool : PostgreSQL.Pool Row :=
  {| PostgreSQL.answer := fun _ _ _ => PostgreSQL.Resolves (Some []);
     PostgreSQL.executed := [] |}.

(** A database that turns a statement down twice, for two different
    reasons, and then answers it. *)
Definition permission_denied : JsError :=
  {| err_name := "error"; err_message := "permission denied for table Series" |}.

Definition no_such_column : JsError :=
  {| err_name := "error"; err_message := "column title does not exist" |}.

Definition failing_pool : PostgreSQL.Pool Row :=
  {| PostgreSQL.answer := fun n _ _ =>
       match n with
       | 0 => PostgreSQL.Rejects permission_denied
       | 1 => PostgreSQL.Rejects no_such_column
       | _ => PostgreSQL.Resolves (Some [[("id", VNumber "7")]])
       end;
     PostgreSQL.executed := [] |}.

(** A directory that cannot be written to. *)
Definition readonly_io : Io :=
  {| disk :=
       {| files := ∅;
          denied := {[ "/srv/out/report.csv" := "EACCES: permission denied, open '/srv/out/report.csv'" ]};
          limits := ∅ |};
     opened := [] |}.

(** A disk with room for sixteen more characters. *)
Definition full_io : Io :=
  {| disk :=
       {| files := ∅;
          denied := ∅;
          limits := {[ "/srv/out/report.csv" := (16, "ENOSPC: no space left on device, write") ]} |};
     opened := [] |}.

Section GroupingTerms.

Import PostgresQuery.

Definition table_key (row : Table.t) : string * string :=
  (Table.schema row, Table.name row).

Definition row_key (value : CatalogRow.t) : string * string :=
  (CatalogRow.table_schema value, CatalogRow.table_name value).

(** The distinct elements of a list, each at the place of its first
    occurrence. *)
Fixpoint first_seen {A} `{EqDecision A} (l : list A) : list A :=
  match l with
  | [] => []
  | x :: l' => x :: filter (fun y => y ≠ x) (first_seen l')
  end.

(** The catalog rows of one table, in the order of the catalog. *)
Definition rows_of (key : string * string) (data : list CatalogRow.t)
    : list CatalogRow.t :=
  filter (fun value => row_key value = key) data.

(** The columns of the first table under a key, none if there is no such
    table. *)
Fixpoint columns_of (key : string * string) (tables : list Table.t)
    : list Column.t :=
  match tables with
  | [] => []
  | row :: tables' =>
      if decide (table_key row = key) then Table.columns row
      else columns_of key tables'
  end.

Definition new_table (value : CatalogRow.t) : Table.t :=
  {| Table.schema := CatalogRow.table_schema value;
     Table.name := CatalogRow.table_name value;
     Table.columns := [] |}.

(** The schema an introspection tool works on. *)
Definition schema_of (schema : option string) : string :=
  default defaults.describeTables_schema schema.

End GroupingTerms.

(** A catalog of two tables whose rows come interleaved. *)
Definition catalog_row (schema table column type : string)
    : PostgresQuery.CatalogRow.t :=
  {| PostgresQuery.CatalogRow.table_schema := schema;
     PostgresQuery.CatalogRow.table_name := table;
     PostgresQuery.CatalogRow.column_name := column;
     PostgresQuery.CatalogRow.data_type := type;
     PostgresQuery.CatalogRow.identity := false;
     PostgresQuery.CatalogRow.required := true;
     PostgresQuery.CatalogRow.character_maximum_length := PostgresQuery.Null;
     PostgresQuery.CatalogRow.numeric_precision := PostgresQuery.Null;
     PostgresQuery.CatalogRow.numeric_precision_radix := PostgresQuery.Null |}.

Definition sample_catalog : list PostgresQuery.CatalogRow.t :=
  [ catalog_row "public" "Series" "Id" "integer";
    catalog_row "public" "Episodes" "Id" "integer";
    catalog_row "public" "Series" "Title" "text";
    catalog_row "public" "Episodes" "SeriesId" "integer";
    catalog_row "public" "Episodes" "Title" "text" ].

Definition catalog_pool : PostgreSQL.Pool PostgresQuery.CatalogRow.t :=
  {| PostgreSQL.answer := fun _ _ _ => PostgreSQL.Resolves (Some sample_catalog);
     PostgreSQL.executed := [] |}.

(** A database that knows no column of the table asked for. *)
Definition unknown_table_pool : PostgreSQL.Pool PostgresQuery.ColumnRow.t :=
  {| PostgreSQL.answer := fun _ _ _ => PostgreSQL.Resolves (Some []);
     PostgreSQL.executed := [] |}.

(** ** Terms of the further properties *)

Section TableTerms.

Import Csv.

(** The texts of a row's cells under the columns, each cell read as the
    library reads it; none when a cell has no text. *)
Definition cell_texts (walk : Walk) (columns : list string) (row : Row)
    : option (list string) :=
  mapM (fun key => field_text (get walk row key)) columns.

(** What a file is made from: the header, then the cell texts of every row
    under the keys of the first row.  No rows, no header. *)
Definition table_of (walk : Walk) (contents : list Row)
    : option (list (list string)) :=
  match contents with
  | [] => Some []
  | first :: _ =>
      (fun cells => keys first :: cells)
        <$> mapM (cell_texts walk (keys first)) contents
  end.

Definition no_quote_ahead (rest : string) : Prop :=
  Str.first_char rest ≠ Some Str.dquote.

(** The line of a record of texts. *)
Definition line_of (texts : list string) : string :=
  Str.join delimiter (quoted_text <$> texts) +:+ record_delimiter.

(** The lines of a table of texts, one after the other. *)
Definition lines_of (table : list (list string)) : string :=
  Str.join EmptyString (line_of <$> table).

(** What follows the first field of a record: the other fields, each after
    a delimiter, then the rest. *)
Definition record_tail (texts : list string) (rest : string) : string :=
  match texts with
  | [] => rest
  | _ :: _ => delimiter +:+ Str.join delimiter (quoted_text <$> texts) +:+ rest
  end.

(** Nothing, or something that starts neither a field nor a delimiter. *)
Definition ends_record (rest : string) : Prop :=
  match rest with
  | EmptyString => True
  | String c _ => c ≠ Str.dquote ∧ c ≠ Str.comma
  end.

End TableTerms.

Section ComposeTerms.

(** The answer of saveQueryResult that goes with an answer of
    create_fromjson_tofs. *)
Definition saved_output (out : CsvGenerator.createFromJsonToFSOutput)
    : Postgres.saveQueryResultOutput :=
  {| Postgres.sq_rowCount := CsvGenerator.rowCount out;
     Postgres.fullPath := CsvGenerator.fullPath out |}.

Definition saved_result (r : CallToolResult CsvGenerator.createFromJsonToFSOutput)
    : CallToolResult Postgres.saveQueryResultOutput :=
  {| content := content r;
     structuredContent := saved_output <$> structuredContent r;
     isError := isError r |}.

(** The same for a call that need not have been answered. *)
Definition saved_completion
    (c : Completion (CallToolResult CsvGenerator.createFromJsonToFSOutput))
    : Completion (CallToolResult Postgres.saveQueryResultOutput) :=
  match c with
  | Fulfilled r => Fulfilled (saved_result r)
  | Rejected e => Rejected e
  | Dies => Dies
  end.

(** What a call leaves in its file once its stream has opened: all the
    stringifier pushed when it ended, cut to what the file can take, and
    nothing when it stopped. *)
Definition left_in_file (run : Csv.Run) (limit : option (nat * string)) : string :=
  match run with
  | Csv.Ended data =>
      match limit with
      | Some (room, _) =>
          if Nat.ltb room (String.length data) then Str.take room data else data
      | None => data
      end
  | Csv.Stopped _ => EmptyString
  end.

(** A file name that is one plain segment. *)
Definition plain_name (name : string) : Prop :=
  Str.mem Str.slash name = false
  ∧ name ≠ EmptyString ∧ name ≠ Path.dot ∧ name ≠ Path.dotdot.

(** The number of dollar signs of a statement: its placeholders, when it
    holds no other. *)
Fixpoint placeholders (text : string) : nat :=
  match text with
  | EmptyString => 0
  | String c text' =>
      (if Ascii.eqb c JsString.dollar then 1 else 0) + placeholders text'
  end.

End ComposeTerms.

Section ToolTerms.

Import PostgreSQL.

(** A tool run that executed the one statement [text] with [values] and
    fulfilled: with an error result that carries the failure's message after
    [prefix] when the statement failed, and without error flag otherwise. *)
Definition surfaces {T S : Type} (prefix text : string)
    (values : option (list Value)) (p : Pool T)
    (run : Completion (CallToolResult S) * Pool T) : Prop :=
  snd run = ran p text values
  ∧ ∃ result, fst run = Fulfilled result
      ∧ match outcome p text values with
        | Rejects err =>
            result = {| content := prefix +:+ error_toString err;
                        structuredContent := None;
                        isError := true |}
        | Resolves _ => isError result = false
        end.

(** The rows a statement gave: none when it failed. *)
Definition returned_rows {T : Type} (o : QueryOutcome T) : list T :=
  match o with
  | Resolves rows => default [] rows
  | Rejects _ => []
  end.

(** A run that executed one statement, with as many values as the statement
    has placeholders. *)
Definition binds_all {T A : Type} (p : Pool T) (run : A * Pool T) : Prop :=
  ∃ text values,
    snd run = ran p text values
    ∧ placeholders text = List.length (default [] values).

(** The resource of a schema, when its name is taken as it is. *)
Definition plain_resource (value : Postgres.SchemaRow) : Postgres.Resource :=
  {| Postgres.res_name := "table_schema_" +:+ Postgres.schema_name value;
     Postgres.res_title := "Table Schema: " +:+ Postgres.schema_name value;
     Postgres.res_description :=
       "Describes the table schema of the database under '"
       +:+ Postgres.schema_name value +:+ "' schema";
     Postgres.res_uri :=
       "postgres://schemas/" +:+ Postgres.schema_name value +:+ "/tables" |}.

End ToolTerms.

Section BlockTerms.

Import PostgresQuery.




Definition all_columns (tables : list Table.t) : list Column.t :=
  List.concat (Table.columns <$> tables).

End BlockTerms.

(** Two parts of a result, under the same columns. *)
Definition part_one : list Row :=
  [ [("id", VNumber "1"); ("title", VString "a")];
    [("id", VNumber "2"); ("title", VNull)] ].

Definition part_two : list Row :=
  [ [("id", VNumber "3"); ("title", VString "c")] ].


(** A database with two schemas. *)
Definition schema_pool : PostgreSQL.Pool Postgres.SchemaRow :=
  {| PostgreSQL.answer := fun _ _ _ =>
       PostgreSQL.Resolves (Some [ {| Postgres.schema_name := "public" |};
                                   {| Postgres.schema_name := "archive" |} ]);
     PostgreSQL.executed := [] |}.

Definition rows_pool : PostgreSQL.Pool Row :=
  {| PostgreSQL.answer := fun _ _ _ => PostgreSQL.Resolves (Some part_one);
     PostgreSQL.executed := [] |}.

(** * Properties *)

(** ** Paths *)

Example join_plain : Path.join ["/srv/out"; "report.csv"] = "/srv/out/report.csv".
Proof. reflexivity. Qed.

Example join_trailing_slash : Path.join ["/srv/out/"; "report.csv"] = "/srv/out/report.csv".
Proof. reflexivity. Qed.

Example join_climbs : Path.join ["/srv/out"; "../../etc/report.csv"] = "/etc/report.csv".
Proof. reflexivity. Qed.

Example join_nothing : Path.join [Str.empty; Str.empty] = ".".
Proof. reflexivity. Qed.

(** ** Strings *)

Lemma append_cons (ch : ascii) (a b : string) :
  String ch a +:+ b = String ch (a +:+ b).
Proof. reflexivity. Qed.

Lemma append_empty_l (a : string) : EmptyString +:+ a = a.
Proof. reflexivity. Qed.

Lemma append_assoc (a b c : string) : (a +:+ b) +:+ c = a +:+ (b +:+ c).
Proof.
  induction a as [|ch a IH]; [done |].
  by rewrite !append_cons, IH.
Qed.

Lemma append_empty_r (a : string) : a +:+ EmptyString = a.
Proof.
  induction a as [|ch a IH]; [done |].
  by rewrite append_cons, IH.
Qed.

Lemma replace_all_absent (c : ascii) (by_ s : string) :
  Str.mem c s = false → Str.replace_all c by_ s = s.
Proof.
  induction s as [|d s IH]; [done |].
  cbn [Str.mem Str.replace_all].
  destruct (Ascii.eqb c d); [done |].
  intros Hmem. by rewrite IH.
Qed.

Lemma join_empty_cons (x : string) (l : list string) :
  Str.join EmptyString (x :: l) = x +:+ Str.join EmptyString l.
Proof.
  destruct l as [|y l]; cbn [Str.join].
  - by rewrite append_empty_r.
  - by rewrite append_empty_l.
Qed.

(** ** Dates *)

Example iso_sample : JsDate.toISOString 1704164645000 = "2024-01-02T03:04:05.000Z".
Proof. reflexivity. Qed.

Example iso_epoch : JsDate.toISOString 0 = "1970-01-01T00:00:00.000Z".
Proof. reflexivity. Qed.

Example iso_before_epoch : JsDate.toISOString (-1) = "1969-12-31T23:59:59.999Z".
Proof. reflexivity. Qed.

Example iso_leap_day : JsDate.toISOString 951782400000 = "2000-02-29T00:00:00.000Z".
Proof. reflexivity. Qed.

Example iso_latest : JsDate.toISOString 8640000000000000 = "+275760-09-13T00:00:00.000Z".
Proof. reflexivity. Qed.

Example iso_earliest :
  JsDate.toISOString (-8640000000000000) = "-271821-04-20T00:00:00.000Z".
Proof. reflexivity. Qed.

Section Calendar.

Import JsDate.

Local Open Scope Z_scope.

Lemma mem_app (c : ascii) (a b : string) :
  Str.mem c (a +:+ b) = Str.mem c a || Str.mem c b.
Proof.
  induction a as [|d a IH]; [done |].
  rewrite append_cons. cbn [Str.mem]. rewrite IH. by destruct (Ascii.eqb c d).
Qed.

Lemma digits_no_quote (width : nat) (n : Z) :
  Str.mem Str.dquote (digits width n) = false.
Proof.
  revert n. induction width as [|width IH]; intros n; [done |].
  cbn [digits]. rewrite mem_app, IH. cbn [orb].
  assert (0 <= n mod 10 < 10) as Hdigit by (apply Z.mod_pos_bound; lia).
  assert (Z.to_nat (n mod 10) < 10)%nat as Hlt by lia.
  revert Hlt. generalize (Z.to_nat (n mod 10)). intros k Hlt.
  do 10 (destruct k as [|k]; [reflexivity |]). lia.
Qed.

Lemma year_text_no_quote (y : Z) : Str.mem Str.dquote (year_text y) = false.
Proof.
  unfold year_text. destruct (Z.leb 0 y && Z.leb y 9999).
  - apply digits_no_quote.
  - rewrite mem_app, digits_no_quote. by destruct (Z.ltb y 0).
Qed.

Lemma iso_8601_no_quote (y m d h mi s ms : Z) :
  Str.mem Str.dquote (iso_8601 y m d h mi s ms) = false.
Proof.
  unfold iso_8601. by rewrite !mem_app, year_text_no_quote, !digits_no_quote.
Qed.

(** Every day of one 400-year cycle, checked one by one. *)
Lemma cycle_checked :
  forallb cycle_day_ok (range (Z.to_nat 146097) 0) = true.
Proof. vm_compute. reflexivity. Qed.

Lemma in_range (n : nat) (from x : Z) :
  from <= x < from + Z.of_nat n → In x (range n from).
Proof.
  revert from. induction n as [|n IH]; intros from Hx; [lia |].
  cbn [range In]. destruct (decide (from = x)) as [->|Hne]; [by left |].
  right. apply IH. lia.
Qed.

Lemma cycle_day (doe : Z) :
  0 <= doe < 146097 → cycle_day_ok doe = true.
Proof.
  intros Hdoe. pose proof cycle_checked as Hall.
  rewrite forallb_forall in Hall. apply Hall.
  apply in_range. rewrite Z2Nat.id; lia.
Qed.

(** The calendar repeats every 400 years, which are 146097 days. *)
Lemma leap_year_cycle (y era : Z) : leap_year (y + era * 400) = leap_year y.
Proof.
  unfold leap_year.
  replace ((y + era * 400) mod 4) with (y mod 4)
    by (replace (y + era * 400) with (y + (era * 100) * 4) by lia;
        by rewrite Z.mod_add).
  replace ((y + era * 400) mod 100) with (y mod 100)
    by (replace (y + era * 400) with (y + (era * 4) * 100) by lia;
        by rewrite Z.mod_add).
  by replace ((y + era * 400) mod 400) with (y mod 400) by (by rewrite Z.mod_add).
Qed.

Lemma days_in_month_cycle (y era m : Z) :
  days_in_month (y + era * 400) m = days_in_month y m.
Proof. unfold days_in_month. by rewrite leap_year_cycle. Qed.

Lemma days_before_month_cycle (y era m : Z) :
  days_before_month (y + era * 400) m = days_before_month y m.
Proof.
  unfold days_before_month. f_equal. apply list_fmap_ext.
  intros i k _. by rewrite days_in_month_cycle.
Qed.

Lemma day_from_year_cycle (y era : Z) :
  day_from_year (y + era * 400) = day_from_year y + era * 146097.
Proof.
  unfold day_from_year.
  replace (y + era * 400 - 1969) with (y - 1969 + (era * 100) * 4) by lia.
  replace (y + era * 400 - 1901) with (y - 1901 + (era * 4) * 100) by lia.
  replace (y + era * 400 - 1601) with (y - 1601 + era * 400) by lia.
  rewrite !Z.div_add by lia. lia.
Qed.

Lemma civil_cycle (day : Z) :
  let era := (day + 719468) / 146097 in
  let doe := (day + 719468) mod 146097 in
  civil day
  = (let '(y, m, d) := civil (doe - 719468) in (y + era * 400, m, d)).
Proof.
  cbv zeta. unfold civil.
  set (z := day + 719468).
  replace (z mod 146097 - 719468 + 719468) with (z mod 146097) by lia.
  assert (0 <= z mod 146097 < 146097) as Hdoe by (apply Z.mod_pos_bound; lia).
  rewrite (Z.div_small (z mod 146097)) by lia.
  replace (z mod 146097 - 0 * 146097) with (z mod 146097) by lia.
  replace (z - z / 146097 * 146097) with (z mod 146097)
    by (rewrite (Z.mod_eq z 146097) by lia; lia).
  cbv zeta. f_equal. f_equal. lia.
Qed.

(** The date [civil] gives for a day is the date of that day. *)
Lemma civil_spec (day : Z) :
  let '(y, m, d) := civil day in
  1 <= m <= 12 ∧ 1 <= d <= days_in_month y m
  ∧ day_from_year y + days_before_month y m + (d - 1) = day.
Proof.
  pose proof (civil_cycle day) as Hcycle. cbv zeta in Hcycle.
  set (z := day + 719468) in *.
  assert (0 <= z mod 146097 < 146097) as Hdoe by (apply Z.mod_pos_bound; lia).
  pose proof (cycle_day _ Hdoe) as Hok. unfold cycle_day_ok in Hok.
  destruct (civil (z mod 146097 - 719468)) as [[y m] d].
  rewrite Hcycle.
  rewrite days_in_month_cycle, days_before_month_cycle, day_from_year_cycle.
  apply andb_prop in Hok as [Hok Hday]. apply andb_prop in Hok as [Hok Hd2].
  apply andb_prop in Hok as [Hok Hd1]. apply andb_prop in Hok as [Hm1 Hm2].
  apply Z.leb_le in Hm1, Hm2, Hd1, Hd2. apply Z.eqb_eq in Hday.
  split; [lia |]. split; [lia |].
  rewrite (Z.mod_eq z 146097) in Hday by lia. subst z. lia.
Qed.

(** [toISOString] writes the ISO-8601 text of a date and time of day that
    exist and whose time value is the date's. *)
Lemma toISOString_spec (time : Z) :
  ∃ y m d h mi s ms,
    toISOString time = iso_8601 y m d h mi s ms
    ∧ date_time y m d h mi s ms
    ∧ time_of y m d h mi s ms = time.
Proof.
  pose proof (civil_spec (time / msPerDay)) as Hcivil.
  unfold toISOString.
  destruct (civil (time / msPerDay)) as [[y m] d].
  destruct Hcivil as (Hm & Hd & Hday).
  set (ms := time mod msPerDay).
  assert (0 <= ms < msPerDay) as Hms by (apply Z.mod_pos_bound; done).
  unfold msPerDay in Hms.
  exists y, m, d, (ms / 3600000), (ms / 60000 mod 60), (ms / 1000 mod 60),
    (ms mod 1000).
  split; [done |]. split.
  - unfold date_time. split_and!; try lia; Z.div_mod_to_equations; lia.
  - unfold time_of. rewrite Hday. subst ms. unfold msPerDay in *.
    Z.div_mod_to_equations. lia.
Qed.

Lemma toISOString_no_quote (time : Z) :
  Str.mem Str.dquote (toISOString time) = false.
Proof.
  destruct (toISOString_spec time) as (y & m & d & h & mi & s & ms & -> & _).
  apply iso_8601_no_quote.
Qed.

End Calendar.

(** ** Reading a cell *)

Lemma get_own (walk : Walk) (row : Row) (key : string) (v : Value) :
  own row key = Some v → get walk row key = v.
Proof. unfold get. by intros ->. Qed.

Lemma get_plain (walk : Walk) (row : Row) (key : string) :
  own row key = None → plain_key key → get walk row key = VUndefined.
Proof.
  intros Hown (Hdeep & Hmethod & Hproto). unfold get, inherited.
  rewrite Hown, Hdeep, bool_decide_eq_false_2 by done.
  destruct (String.eqb key "__proto__") eqn:Heq; [| done].
  by apply String.eqb_eq in Heq.
Qed.

Lemma get_not_deep (walk : Walk) (row : Row) (key : string) :
  is_deep key = false → get walk row key = default (inherited key) (own row key).
Proof. intros Hdeep. unfold get. rewrite Hdeep. by destruct (own row key). Qed.

Lemma own_other_key (row : Row) (key other : string) (value : Value) :
  key ≠ other → own ((key, value) :: row) other = own row other.
Proof.
  intros Hne. cbn [own].
  destruct (String.eqb key other) eqn:Heq; [| done].
  apply String.eqb_eq in Heq. congruence.
Qed.

(** ** The stringifier *)

Example header_and_rows :
  Csv.run no_walk handler_options
    [ [("id", VNumber "1"); ("title", VString "a, b")];
      [("id", VNumber "2"); ("title", VString (Str.of_char Str.dquote +:+ "x"))];
      [("title", VString EmptyString)] ]
  = Csv.Ended
      (ident "id" +:+ "," +:+ ident "title" +:+ Csv.record_delimiter
       +:+ ident "1" +:+ "," +:+ ident "a, b" +:+ Csv.record_delimiter
       +:+ ident "2" +:+ "," +:+ ident (Csv.quote +:+ Csv.quote +:+ "x")
       +:+ Csv.record_delimiter
       +:+ ident EmptyString +:+ "," +:+ ident EmptyString +:+ Csv.record_delimiter).
Proof. reflexivity. Qed.

Example no_rows_no_header : Csv.run no_walk handler_options [] = Csv.Ended EmptyString.
Proof. reflexivity. Qed.

(** A key of the first row that reads as a path is followed into the rows
    that do not have it as a property. *)
Example path_is_followed :
  Csv.run (fun _ _ => VNumber "2") handler_options
    [ [("a[0]", VNumber "1")]; [("a", VObject "[2]")] ]
  = Csv.Ended
      (ident "a[0]" +:+ Csv.record_delimiter
       +:+ ident "1" +:+ Csv.record_delimiter
       +:+ ident "2" +:+ Csv.record_delimiter).
Proof. reflexivity. Qed.

(** A row without a key that every object inherits a method under gives
    that method, which is no field: the stringifier stops there. *)
Example inherited_method_stops :
  Csv.run no_walk handler_options
    [ [("toString", VString "x"); ("a", VNumber "1")]; [("a", VNumber "2")] ]
  = Csv.Stopped
      (ident "toString" +:+ "," +:+ ident "a" +:+ Csv.record_delimiter
       +:+ ident "x" +:+ "," +:+ ident "1" +:+ Csv.record_delimiter).
Proof. reflexivity. Qed.

Example invalid_date_stops :
  Csv.run no_walk handler_options [ [("seen", VDate 8640000000000001)] ]
  = Csv.Stopped (ident "seen" +:+ Csv.record_delimiter).
Proof. reflexivity. Qed.

Lemma mapM_cons {A B} (f : A → option B) (x : A) (l : list A) :
  mapM f (x :: l) = y ← f x; k ← mapM f l; Some (y :: k).
Proof. reflexivity. Qed.

Section Stringifier.

Import Csv.

Context (walk : Walk).

Lemma write_text_quoted (is_string : bool) (value : string) :
  write_text handler_options is_string value = quoted_text value.
Proof.
  unfold write_text, quoted_text.
  destruct value as [|ch value].
  - by destruct is_string.
  - cbv beta iota zeta.
    change (quoted handler_options) with true.
    rewrite orb_true_r, orb_true_l.
    destruct (Str.mem Str.dquote (String ch value)) eqn:Hq; [done |].
    by rewrite (replace_all_absent _ _ _ Hq).
Qed.

Lemma stringify_field_quoted (field : Value) :
  stringify_field handler_options field = quoted_text <$> field_text field.
Proof.
  unfold stringify_field, field_text.
  destruct (cast field) as [value| |] eqn:Hcast; [| by destruct field | done].
  cbn [fmap option_fmap option_map]. by rewrite write_text_quoted.
Qed.

Lemma mapM_fmap_option {A B C} (f : A → option B) (g : B → C) (l : list A) :
  mapM (fun x => g <$> f x) l = fmap g <$> mapM f l.
Proof.
  induction l as [|x l IH]; [done |].
  rewrite !mapM_cons, IH. destruct (f x) as [y|]; [| done].
  by destruct (mapM f l).
Qed.

Lemma mapM_fmap_list {A B C} (f : B → option C) (g : A → B) (l : list A) :
  mapM f (g <$> l) = mapM (fun x => f (g x)) l.
Proof.
  induction l as [|x l IH]; [done |].
  by rewrite fmap_cons, !mapM_cons, IH.
Qed.

Lemma stringify_fields_texts (fields : list Value) :
  stringify_fields handler_options fields
  = (fun texts => Str.join delimiter (quoted_text <$> texts))
      <$> mapM field_text fields.
Proof.
  unfold stringify_fields.
  rewrite (mapM_ext _ (fun field => quoted_text <$> field_text field))
    by (intros field; apply stringify_field_quoted).
  rewrite mapM_fmap_option. by destruct (mapM field_text fields).
Qed.

Lemma stringify_record_texts (columns : list string) (row : Row) :
  stringify_record walk handler_options columns row
  = (fun texts => Str.join delimiter (quoted_text <$> texts))
      <$> cell_texts walk columns row.
Proof.
  unfold stringify_record, cell_texts.
  by rewrite stringify_fields_texts, mapM_fmap_list.
Qed.

Lemma write_stopped (st : Stringifier) (rows : list Row) :
  stop st = true → fold_left (write walk) rows st = st.
Proof.
  intros Hstop. induction rows as [|row rows IH]; [done |].
  cbn [fold_left]. unfold write at 2. by rewrite Hstop.
Qed.

(** Once the first record is out, each further record adds its line, as
    long as every record can be written. *)
Lemma write_all_started (o : Options) (cols : list string) (rows : list Row) :
  ∀ (n : nat) (out : string) (lines : list string),
    mapM (record_line walk o cols) rows = Some lines →
    fold_left (write walk) rows
      {| options := o; columns := Some cols; records := S n; pushed := out;
         stop := false |}
    = {| options := o; columns := Some cols;
         records := S n + List.length rows;
         pushed := out +:+ Str.join EmptyString lines;
         stop := false |}.
Proof.
  induction rows as [|row rows IH]; intros n out lines Hlines.
  - cbn in Hlines. injection Hlines as <-.
    cbn. by rewrite append_empty_r, Nat.add_0_r.
  - apply mapM_Some in Hlines.
    destruct lines as [|line lines]; [by apply Forall2_cons_nil_inv in Hlines |].
    apply Forall2_cons_1 in Hlines as [Hline Hlines].
    apply mapM_Some in Hlines.
    unfold record_line in Hline.
    destruct (stringify_record walk o cols row) as [chunk_string|] eqn:Hrow;
      [| done].
    injection Hline as <-.
    cbn [fold_left]. unfold write at 2.
    cbn [options columns records pushed stop Nat.eqb]. rewrite Hrow.
    rewrite (IH _ _ _ Hlines), join_empty_cons. cbn [List.length].
    f_equal; [lia |].
    by rewrite !append_assoc, append_empty_l.
Qed.

(** A record that cannot be written stops the stringifier for good. *)
Lemma write_all_stops (o : Options) (cols : list string) (rows : list Row) :
  ∀ (n : nat) (out : string),
    mapM (record_line walk o cols) rows = None →
    stop (fold_left (write walk) rows
            {| options := o; columns := Some cols; records := n; pushed := out;
               stop := false |}) = true.
Proof.
  induction rows as [|row rows IH]; intros n out Hlines; [done |].
  cbn [fold_left]. unfold write at 2.
  cbn [options columns records pushed stop].
  rewrite mapM_cons in Hlines.
  destruct (stringify_record walk o cols row) as [chunk_string|] eqn:Hrow.
  - apply IH.
    assert (record_line walk o cols row
            = Some (chunk_string +:+ record_delimiter)) as Hline.
    { unfold record_line. by rewrite Hrow. }
    rewrite Hline in Hlines.
    by destruct (mapM (record_line walk o cols) rows).
  - by rewrite write_stopped.
Qed.

(** The layout of what is written when every row can be: the header line,
    then one line per row, in the order of the rows. *)
Lemma run_ended (o : Options) (contents : list Row) (lines : list string) :
  data_lines walk o contents = Some lines →
  run walk o contents
  = Ended (header_line o contents +:+ Str.join EmptyString lines).
Proof.
  destruct contents as [|first rest]; [by intros [= <-] |].
  cbn [data_lines]. intros Hlines.
  apply mapM_Some in Hlines.
  destruct lines as [|line lines]; [by apply Forall2_cons_nil_inv in Hlines |].
  apply Forall2_cons_1 in Hlines as [Hline Hlines].
  apply mapM_Some in Hlines.
  unfold record_line in Hline.
  destruct (stringify_record walk o (keys first) first) as [chunk_string|] eqn:Hrow;
    [| done].
  injection Hline as <-.
  assert (fold_left (write walk) (first :: rest) (stringify o)
          = {| options := o; columns := Some (keys first);
               records := 1 + List.length rest;
               pushed := (EmptyString +:+ headers o (keys first) +:+ chunk_string
                          +:+ record_delimiter) +:+ Str.join EmptyString lines;
               stop := false |}) as Hfold.
  { cbn [fold_left]. unfold write at 2, stringify.
    cbn [columns records pushed options stop Nat.eqb]. rewrite Hrow.
    by rewrite (write_all_started _ _ _ _ _ _ Hlines). }
  unfold run. rewrite Hfold.
  unfold end_; cbn [records pushed stop Nat.add Nat.eqb].
  cbn [header_line].
  by rewrite join_empty_cons, !append_assoc, append_empty_l.
Qed.

(** A row that cannot be written stops the stringifier. *)
Lemma run_stopped (o : Options) (contents : list Row) :
  data_lines walk o contents = None →
  ∃ data, run walk o contents = Stopped data.
Proof.
  unfold run. destruct contents as [|first rest]; [done |].
  cbn [data_lines]. intros Hlines.
  pose proof (write_all_stops o (keys first) (first :: rest) 0 EmptyString Hlines)
    as Hstop.
  assert (fold_left (write walk) (first :: rest) (stringify o)
          = fold_left (write walk) (first :: rest)
              {| options := o; columns := Some (keys first); records := 0;
                 pushed := EmptyString; stop := false |}) as Heq.
  { cbn [fold_left]. by unfold write at 2 4, stringify. }
  rewrite Heq. unfold end_ at 1 2. rewrite Hstop.
  rewrite Hstop. by eexists.
Qed.

Lemma run_ended_inv (o : Options) (contents : list Row) (data : string) :
  run walk o contents = Ended data →
  ∃ lines, data_lines walk o contents = Some lines
           ∧ data = header_line o contents +:+ Str.join EmptyString lines.
Proof.
  intros Hrun. destruct (data_lines walk o contents) as [lines|] eqn:Hlines.
  - exists lines. split; [done |].
    rewrite (run_ended _ _ _ Hlines) in Hrun. congruence.
  - destruct (run_stopped _ _ Hlines) as [other Hstopped]. congruence.
Qed.

Lemma data_lines_length (o : Options) (contents : list Row) (lines : list string) :
  data_lines walk o contents = Some lines →
  List.length lines = List.length contents.
Proof.
  destruct contents as [|first rest]; [by intros [= <-] |].
  cbn [data_lines]. intros Hlines. apply mapM_Some in Hlines.
  symmetry. by eapply Forall2_length.
Qed.

Lemma data_lines_lookup (o : Options) (contents : list Row) (lines : list string)
    (i : nat) (row : Row) :
  data_lines walk o contents = Some lines →
  contents !! i = Some row →
  ∃ chunk_string,
    stringify_record walk o (default [] (keys <$> head contents)) row
      = Some chunk_string
    ∧ lines !! i = Some (chunk_string +:+ record_delimiter).
Proof.
  destruct contents as [|first rest]; [done |].
  cbn [data_lines head fmap option_fmap option_map default].
  intros Hlines Hrow. apply mapM_Some in Hlines.
  destruct (Forall2_lookup_l _ _ _ _ _ Hlines Hrow) as (line & Hline & Hrec).
  unfold record_line in Hrec.
  destruct (stringify_record walk o (keys first) row) as [chunk_string|] eqn:Hs;
    [| done].
  exists chunk_string. split; [exact Hs |]. by injection Hrec as <-.
Qed.

End Stringifier.

(** ** Write streams *)

Section Streams.

Lemma put_put (path : string) (data1 data2 : string) (fs : FS) :
  put path data2 (put path data1 fs) = put path data2 fs.
Proof. unfold put. cbn [files denied limits]. by rewrite insert_insert_eq. Qed.

Lemma createWriteStream_denied (path : string) (io : Io) (message : string) :
  denied (disk io) !! path = Some message →
  createWriteStream path io
  = ({| stream_path := path; open_error := Some message |},
     {| disk := disk io; opened := opened io ++ [path] |}).
Proof. unfold createWriteStream. by intros ->. Qed.

Lemma createWriteStream_free (path : string) (io : Io) :
  denied (disk io) !! path = None →
  createWriteStream path io
  = ({| stream_path := path; open_error := None |},
     {| disk := put path EmptyString (disk io);
        opened := opened io ++ [path] |}).
Proof. unfold createWriteStream. by intros ->. Qed.

(** An open is logged, and touches no file but its own. *)
Lemma createWriteStream_opened (path : string) (io : Io) :
  opened (snd (createWriteStream path io)) = opened io ++ [path].
Proof. unfold createWriteStream. by destruct (denied (disk io) !! path). Qed.

Lemma createWriteStream_disk (path : string) (io : Io) :
  let fs := disk (snd (createWriteStream path io)) in
  denied fs = denied (disk io)
  ∧ limits fs = limits (disk io)
  ∧ (∀ other, other ≠ path → files fs !! other = files (disk io) !! other)
  ∧ (is_Some (denied (disk io) !! path) → fs = disk io).
Proof.
  cbv zeta. unfold createWriteStream.
  destruct (denied (disk io) !! path) as [message|] eqn:Hdenied; [done |].
  cbn [snd disk put files denied limits]. split_and!; [done | done | |].
  - intros other Hother. by rewrite lookup_insert_ne.
  - by intros [? ?].
Qed.

(** A stream that cannot be opened fails and leaves the disk alone. *)
Lemma stream_run_denied (path data : string) (io : Io) (message : string) :
  denied (disk io) !! path = Some message →
  stream_run path data io
  = (Error message, {| disk := disk io; opened := opened io ++ [path] |}).
Proof.
  intros Hdenied. unfold stream_run.
  by rewrite (createWriteStream_denied _ _ _ Hdenied).
Qed.

(** A stream that opens on a file that can take the data finishes. *)
Lemma stream_run_writable (path data : string) (io : Io) :
  writable path data (disk io) →
  stream_run path data io
  = (Finish, {| disk := put path data (disk io); opened := opened io ++ [path] |}).
Proof.
  intros [Hfree Hroom]. unfold stream_run, pipe_end.
  rewrite (createWriteStream_free _ _ Hfree).
  cbn [open_error stream_path disk opened put limits].
  destruct (limits (disk io) !! path) as [[room message]|] eqn:Hlimit.
  - specialize (Hroom _ _ eq_refl).
    destruct (Nat.ltb room (String.length data)) eqn:Hlt.
    + apply Nat.ltb_lt in Hlt. lia.
    + by rewrite put_put.
  - by rewrite put_put.
Qed.

(** A stream that opens on a file that cannot take the data fails, leaving
    what the file could take. *)
Lemma stream_run_short (path data : string) (io : Io) (room : nat)
    (message : string) :
  denied (disk io) !! path = None →
  limits (disk io) !! path = Some (room, message) →
  (room < String.length data)%nat →
  stream_run path data io
  = (Error message,
     {| disk := put path (Str.take room data) (disk io);
        opened := opened io ++ [path] |}).
Proof.
  intros Hfree Hlimit Hlt. unfold stream_run, pipe_end.
  rewrite (createWriteStream_free _ _ Hfree).
  cbn [open_error stream_path disk opened put limits]. rewrite Hlimit.
  apply Nat.ltb_lt in Hlt. rewrite Hlt. by rewrite put_put.
Qed.

Lemma empty_io_writable (path data : string) : writable path data (disk empty_io).
Proof.
  split; [apply lookup_empty |]. intros room message Hlimit.
  change (limits (disk empty_io)) with (∅ : gmap string (nat * string)) in Hlimit.
  by rewrite lookup_empty in Hlimit.
Qed.

(** Every stream ends in one of these three ways. *)
Lemma stream_run_cases (path data : string) (io : Io) :
  (∃ message, denied (disk io) !! path = Some message)
  ∨ writable path data (disk io)
  ∨ (∃ room message,
       denied (disk io) !! path = None
       ∧ limits (disk io) !! path = Some (room, message)
       ∧ (room < String.length data)%nat).
Proof.
  destruct (denied (disk io) !! path) as [message|] eqn:Hdenied; [left; by eexists |].
  right. destruct (limits (disk io) !! path) as [[room message]|] eqn:Hlimit.
  - destruct (decide (room < String.length data)%nat) as [Hlt|Hge].
    + right. by exists room, message.
    + left. split; [done |]. intros room' message' Heq.
      rewrite Hlimit in Heq. simplify_eq. lia.
  - left. split; [done |]. intros room message Heq. by rewrite Hlimit in Heq.
Qed.

(** A stream is one open, at its path, and touches no other file. *)
Lemma stream_run_opened (path data : string) (io : Io) :
  opened (snd (stream_run path data io)) = opened io ++ [path].
Proof.
  destruct (stream_run_cases path data io)
    as [(message & Hdenied)|[Hwritable|(room & message & Hfree & Hlimit & Hlt)]].
  - by rewrite (stream_run_denied _ _ _ _ Hdenied).
  - by rewrite (stream_run_writable _ _ _ Hwritable).
  - by rewrite (stream_run_short _ _ _ _ _ Hfree Hlimit Hlt).
Qed.

Lemma stream_run_disk (path data : string) (io : Io) :
  let fs := disk (snd (stream_run path data io)) in
  denied fs = denied (disk io)
  ∧ limits fs = limits (disk io)
  ∧ (∀ other, other ≠ path → files fs !! other = files (disk io) !! other)
  ∧ (is_Some (denied (disk io) !! path) → fs = disk io).
Proof.
  cbv zeta.
  destruct (stream_run_cases path data io)
    as [(message & Hdenied)|[Hwritable|(room & message & Hfree & Hlimit & Hlt)]].
  - by rewrite (stream_run_denied _ _ _ _ Hdenied).
  - rewrite (stream_run_writable _ _ _ Hwritable).
    cbn [snd disk put files denied limits]. split_and!; [done | done | |].
    + intros other Hother. by rewrite lookup_insert_ne.
    + destruct Hwritable as [Hfree _]. rewrite Hfree. by intros [? ?].
  - rewrite (stream_run_short _ _ _ _ _ Hfree Hlimit Hlt).
    cbn [snd disk put files denied limits]. split_and!; [done | done | |].
    + intros other Hother. by rewrite lookup_insert_ne.
    + rewrite Hfree. by intros [? ?].
Qed.

(** A stream that finished has left all its data in the file. *)
Lemma stream_run_finish (path data : string) (io io' : Io) :
  stream_run path data io = (Finish, io') →
  writable path data (disk io)
  ∧ io' = {| disk := put path data (disk io); opened := opened io ++ [path] |}.
Proof.
  destruct (stream_run_cases path data io)
    as [(message & Hdenied)|[Hwritable|(room & message & Hfree & Hlimit & Hlt)]].
  - by rewrite (stream_run_denied _ _ _ _ Hdenied).
  - rewrite (stream_run_writable _ _ _ Hwritable). by intros [= <-].
  - by rewrite (stream_run_short _ _ _ _ _ Hfree Hlimit Hlt).
Qed.

End Streams.

(** ** create_fromjson_tofs *)

Section CreateFromJson.

Import CsvGenerator.

Context (walk : Walk).

(** The call, by what the stringifier and the stream do. *)
Lemma create_ended (input : createFromJsonToFSInput) (io : Io) (data : string) :
  Csv.run walk handler_options (contents input) = Csv.Ended data →
  createFromJsonToFSHandlerAsync walk input io
  = match stream_run (Path.join [path input; filename input]) data io with
    | (Finish, io') =>
        (Fulfilled
           {| content := created_text input;
              structuredContent :=
                Some {| fullPath := Path.join [path input; filename input];
                        rowCount := List.length (contents input) |};
              isError := false |}, io')
    | (Error message, io') =>
        (Fulfilled {| content := "Error creating file: " +:+ message;
                      structuredContent := None;
                      isError := true |}, io')
    end.
Proof.
  intros Hrun. unfold createFromJsonToFSHandlerAsync, stream_run.
  destruct (createWriteStream _ io) as [writableStream io1].
  by rewrite Hrun.
Qed.

Lemma create_finishes (input : createFromJsonToFSInput) (io : Io) (data : string) :
  Csv.run walk handler_options (contents input) = Csv.Ended data →
  writable (Path.join [path input; filename input]) data (disk io) →
  createFromJsonToFSHandlerAsync walk input io
  = (Fulfilled
       {| content := created_text input;
          structuredContent :=
            Some {| fullPath := Path.join [path input; filename input];
                    rowCount := List.length (contents input) |};
          isError := false |},
     {| disk := put (Path.join [path input; filename input]) data (disk io);
        opened := opened io ++ [Path.join [path input; filename input]] |}).
Proof.
  intros Hrun Hwritable.
  by rewrite (create_ended _ _ _ Hrun), (stream_run_writable _ _ _ Hwritable).
Qed.

Lemma create_errors (input : createFromJsonToFSInput) (io io' : Io)
    (data message : string) :
  Csv.run walk handler_options (contents input) = Csv.Ended data →
  stream_run (Path.join [path input; filename input]) data io
    = (Error message, io') →
  createFromJsonToFSHandlerAsync walk input io
  = (Fulfilled {| content := "Error creating file: " +:+ message;
                  structuredContent := None;
                  isError := true |}, io').
Proof. intros Hrun Hstream. by rewrite (create_ended _ _ _ Hrun), Hstream. Qed.

Lemma create_dies (input : createFromJsonToFSInput) (io : Io) (data : string) :
  Csv.run walk handler_options (contents input) = Csv.Stopped data →
  createFromJsonToFSHandlerAsync walk input io
  = (Dies, snd (createWriteStream (Path.join [path input; filename input]) io)).
Proof.
  intros Hrun. unfold createFromJsonToFSHandlerAsync.
  destruct (createWriteStream _ io) as [writableStream io1].
  by rewrite Hrun.
Qed.

(** Whatever the rows and the disk, one stream is opened, at the joined
    path, and no other file changes. *)
Lemma create_one_stream (input : createFromJsonToFSInput) (io : Io) :
  let out := snd (createFromJsonToFSHandlerAsync walk input io) in
  let fullPath := Path.join [path input; filename input] in
  opened out = opened io ++ [fullPath]
  ∧ denied (disk out) = denied (disk io)
  ∧ limits (disk out) = limits (disk io)
  ∧ (∀ other, other ≠ fullPath →
       files (disk out) !! other = files (disk io) !! other)
  ∧ (is_Some (denied (disk io) !! fullPath) → disk out = disk io).
Proof.
  cbv zeta.
  destruct (Csv.run walk handler_options (contents input)) as [data|data] eqn:Hrun.
  - rewrite (create_ended _ _ _ Hrun).
    pose proof (stream_run_opened
                  (Path.join [path input; filename input]) data io) as Hopened.
    pose proof (stream_run_disk
                  (Path.join [path input; filename input]) data io) as Hdisk.
    cbv zeta in Hdisk.
    destruct (stream_run _ data io) as [[|message] io']; cbn [snd] in *; done.
  - rewrite (create_dies _ _ _ Hrun). cbn [snd].
    split; [apply createWriteStream_opened | apply createWriteStream_disk].
Qed.

(** What the call leaves on disk. *)
Lemma create_disk (input : createFromJsonToFSInput) (io : Io) :
  disk (snd (createFromJsonToFSHandlerAsync walk input io))
  = match denied (disk io) !! Path.join [path input; filename input] with
    | Some _ => disk io
    | None =>
        put (Path.join [path input; filename input])
          (left_in_file (Csv.run walk handler_options (contents input))
             (limits (disk io) !! Path.join [path input; filename input]))
          (disk io)
    end.
Proof.
  destruct (Csv.run walk handler_options (contents input)) as [data|data] eqn:Hrun.
  - rewrite (create_ended _ _ _ Hrun).
    destruct (stream_run_cases (Path.join [path input; filename input]) data io)
      as [(message & Hdenied)|[Hwritable|(room & message & Hfree & Hlimit & Hlt)]].
    + by rewrite (stream_run_denied _ _ _ _ Hdenied), Hdenied.
    + rewrite (stream_run_writable _ _ _ Hwritable).
      destruct Hwritable as [Hfree Hroom]. rewrite Hfree.
      cbn [snd disk left_in_file].
      destruct (limits (disk io) !! _) as [[room message]|]; [| done].
      specialize (Hroom _ _ eq_refl).
      destruct (Nat.ltb room (String.length data)) eqn:Hlt; [| done].
      apply Nat.ltb_lt in Hlt. lia.
    + rewrite (stream_run_short _ _ _ _ _ Hfree Hlimit Hlt), Hfree, Hlimit.
      cbn [snd disk left_in_file].
      apply Nat.ltb_lt in Hlt. by rewrite Hlt.
  - rewrite (create_dies _ _ _ Hrun). cbn [snd]. unfold createWriteStream.
    by destruct (denied (disk io) !! Path.join [path input; filename input]).
Qed.

End CreateFromJson.

(** ** The query layer *)

Section QueryLayer.

Import PostgreSQL.

Lemma queryAsync_resolves {T} (p : Pool T) text values rows :
  outcome p text values = Resolves rows →
  queryAsync text values p
  = (Fulfilled {| error := None; message := Text "success";
                  data := default [] rows |}, ran p text values).
Proof.
  unfold outcome, queryAsync, try_catch, bind, pool_query, ret.
  by intros ->.
Qed.

Lemma queryAsync_rejects {T} (p : Pool T) text values err :
  outcome p text values = Rejects err →
  queryAsync text values p
  = (Fulfilled {| error := Some true; message := Thrown err; data := [] |},
     ran p text values).
Proof.
  unfold outcome, queryAsync, try_catch, bind, pool_query, ret.
  by intros ->.
Qed.

Lemma bind_fulfilled {St A B} (m : Async St A) (k : A → Async St B) s a s' :
  m s = (Fulfilled a, s') → bind m k s = k a s'.
Proof. unfold bind. by intros ->. Qed.

Lemma on_pool_fulfilled {P A} (m : Async P A) (p p' : P) (io : Io) (a : A) :
  m p = (Fulfilled a, p') → on_pool m (p, io) = (Fulfilled a, (p', io)).
Proof. unfold on_pool. cbn [fst snd]. by intros ->. Qed.

End QueryLayer.

(** ** postgres_save_query_result *)

Section SaveQueryResult.

Import Postgres.

Context (walk : Walk).

Lemma save_fails (input : saveQueryResultInput) (p : PostgreSQL.Pool Row) (io : Io)
    (err : JsError) :
  outcome p (parameterizedQuery input) (Some (values input)) = PostgreSQL.Rejects err →
  saveQueryResultHandlerAsync walk input (p, io)
  = (Fulfilled {| content := "Error querying database: " +:+ error_toString err;
                  structuredContent := None;
                  isError := true |},
     (ran p (parameterizedQuery input) (Some (values input)), io)).
Proof.
  intros Hout. unfold saveQueryResultHandlerAsync.
  by rewrite (bind_fulfilled _ _ _ _ _
                (on_pool_fulfilled _ _ _ io _ (queryAsync_rejects _ _ _ _ Hout))).
Qed.

Lemma save_no_rows (input : saveQueryResultInput) (p : PostgreSQL.Pool Row) (io : Io)
    (rows : option (list Row)) :
  outcome p (parameterizedQuery input) (Some (values input)) = PostgreSQL.Resolves rows →
  default [] rows = [] →
  saveQueryResultHandlerAsync walk input (p, io)
  = (Fulfilled {| content := "No CSV file generated because no result was found";
                  structuredContent :=
                    Some {| sq_rowCount := 0; fullPath := EmptyString |};
                  isError := false |},
     (ran p (parameterizedQuery input) (Some (values input)), io)).
Proof.
  intros Hout Hnone. unfold saveQueryResultHandlerAsync.
  rewrite (bind_fulfilled _ _ _ _ _
             (on_pool_fulfilled _ _ _ io _ (queryAsync_resolves _ _ _ _ Hout))).
  cbn [PostgreSQL.failed PostgreSQL.error PostgreSQL.data].
  by rewrite Hnone.
Qed.

(** With rows to write, the tool goes on as create_fromjson_tofs does on
    those rows. *)
Lemma save_as_create (input : saveQueryResultInput) (p : PostgreSQL.Pool Row)
    (io : Io) (rows : option (list Row)) :
  let created :=
    CsvGenerator.createFromJsonToFSHandlerAsync walk
      {| CsvGenerator.filename := filename input;
         CsvGenerator.path := path input;
         CsvGenerator.contents := default [] rows |} io in
  outcome p (parameterizedQuery input) (Some (values input)) = PostgreSQL.Resolves rows →
  default [] rows ≠ [] →
  saveQueryResultHandlerAsync walk input (p, io)
  = (saved_completion (fst created),
     (ran p (parameterizedQuery input) (Some (values input)), snd created)).
Proof.
  cbv zeta. intros Hout Hrows. unfold saveQueryResultHandlerAsync.
  rewrite (bind_fulfilled _ _ _ _ _
             (on_pool_fulfilled _ _ _ io _ (queryAsync_resolves _ _ _ _ Hout))).
  cbn [PostgreSQL.failed PostgreSQL.error PostgreSQL.data].
  destruct (Nat.eqb (List.length (default [] rows)) 0) eqn:Hzero.
  { by destruct (default [] rows). }
  unfold on_io, CsvGenerator.createFromJsonToFSHandlerAsync.
  cbn [fst snd CsvGenerator.path CsvGenerator.filename CsvGenerator.contents].
  destruct (createWriteStream _ io) as [writableStream io1].
  destruct (Csv.run walk handler_options (default [] rows)) as [data|data]; [| done].
  by destruct (pipe_end writableStream data io1) as [[|message] io'].
Qed.

End SaveQueryResult.

(** C1, as stated, fails: handed 1001 rows, create_fromjson_tofs succeeds and
    leaves one file, report.csv, with all 1001 data lines in it, where
    ceil(1001 / 1000) = 2 part files are claimed; one stream was opened, and
    no report.part1.csv exists. *)
Lemma big_result_is_one_file :
  let out := CsvGenerator.createFromJsonToFSHandlerAsync no_walk big_input empty_io in
  (∃ result, fst out = Fulfilled result ∧ isError result = false)
  ∧ opened (snd out) = ["/srv/out/report.csv"]
  ∧ dom (files (disk (snd out))) = {["/srv/out/report.csv"]}
  ∧ size (files (disk (snd out))) = 1
  ∧ (1001 + 999) / 1000 = 2
  ∧ files (disk (snd out)) !! "/srv/out/report.part1.csv" = None
  ∧ List.length <$> Csv.data_lines no_walk handler_options big_contents = Some 1001.
Proof.
  cbv zeta.
  assert (∃ lines, Csv.data_lines no_walk handler_options big_contents = Some lines)
    as [lines Hlines] by (eexists; vm_compute; reflexivity).
  assert (writable "/srv/out/report.csv"
            (Csv.header_line handler_options big_contents
             +:+ Str.join EmptyString lines) (disk empty_io)) as Hwritable.
  { apply empty_io_writable. }
  rewrite (create_finishes no_walk big_input empty_io _
             (run_ended _ _ _ _ Hlines) Hwritable).
  cbn [fst snd isError files disk opened put].
  change (Path.join _) with "/srv/out/report.csv".
  change (files (disk empty_io)) with (∅ : gmap string string).
  change (opened empty_io) with (@nil string).
  rewrite insert_empty, dom_singleton_L, map_size_singleton, lookup_singleton_ne by done.
  rewrite Hlines. cbn [fmap option_fmap option_map].
  rewrite (data_lines_length _ _ _ _ Hlines).
  split; [by eexists |]. by repeat split.
Qed.

(** C1 (amended): whatever the rows, more than 1000 of them too,
    create_fromjson_tofs opens one write stream, at join(path, filename), and
    changes no other file.  When every row can be written and the file can
    take them, that file holds the header line once, then one line per row in
    the order of the rows, every line under the columns of the first row, and
    the answer reports the number of rows; nothing is split into parts.  When
    a row cannot be written, the call is never answered. *)
Theorem create_writes_one_file (walk : Walk)
    (input : CsvGenerator.createFromJsonToFSInput) (io : Io) :
  let fullPath := Path.join [CsvGenerator.path input; CsvGenerator.filename input] in
  let rows := CsvGenerator.contents input in
  let out := CsvGenerator.createFromJsonToFSHandlerAsync walk input io in
  opened (snd out) = opened io ++ [fullPath]
  ∧ (∀ other, other ≠ fullPath →
       files (disk (snd out)) !! other = files (disk io) !! other)
  ∧ (Csv.data_lines walk handler_options rows = None → fst out = Dies)
  ∧ ∀ lines, Csv.data_lines walk handler_options rows = Some lines →
      List.length lines = List.length rows
      ∧ (∀ i row, rows !! i = Some row →
           ∃ chunk_string,
             Csv.stringify_record walk handler_options
               (default [] (keys <$> head rows)) row = Some chunk_string
             ∧ lines !! i = Some (chunk_string +:+ Csv.record_delimiter))
      ∧ (writable fullPath
           (Csv.header_line handler_options rows +:+ Str.join EmptyString lines)
           (disk io) →
         fst out
         = Fulfilled
             {| content := created_text input;
                structuredContent :=
                  Some {| CsvGenerator.fullPath := fullPath;
                          CsvGenerator.rowCount := List.length rows |};
                isError := false |}
         ∧ files (disk (snd out))
           = <[fullPath := Csv.header_line handler_options rows
                           +:+ Str.join EmptyString lines]> (files (disk io))).
Proof.
  cbv zeta.
  pose proof (create_one_stream walk input io) as Hone. cbv zeta in Hone.
  destruct Hone as (Hopened & _ & _ & Hothers & _).
  split; [exact Hopened |]. split; [exact Hothers |]. split.
  - intros Hnone. destruct (run_stopped _ _ _ Hnone) as [data Hrun].
    by rewrite (create_dies _ _ _ _ Hrun).
  - intros lines Hlines.
    split; [by eapply data_lines_length |].
    split; [intros i row Hrow; by eapply data_lines_lookup |].
    intros Hwritable.
    by rewrite (create_finishes _ _ _ _ (run_ended _ _ _ _ Hlines) Hwritable).
Qed.

Lemma create_writes_one_file_witness :
  let out := CsvGenerator.createFromJsonToFSHandlerAsync no_walk
               {| CsvGenerator.filename := "report.csv";
                  CsvGenerator.path := "/srv/out";
                  CsvGenerator.contents := sample_rows |} empty_io in
  opened (snd out) = ["/srv/out/report.csv"]
  ∧ files (disk (snd out)) !! "/srv/out/report.part2.csv" = None
  ∧ ∃ result, fst out = Fulfilled result ∧ isError result = false.
Proof.
  pose proof (create_writes_one_file no_walk
                {| CsvGenerator.filename := "report.csv";
                   CsvGenerator.path := "/srv/out";
                   CsvGenerator.contents := sample_rows |} empty_io) as H.
  cbv zeta in H. destruct H as (Hopened & Hother & _ & Hlines).
  cbv zeta. split; [exact Hopened |]. split; [by rewrite Hother |].
  destruct (Hlines _ eq_refl) as (_ & _ & Hfile).
  destruct Hfile as [Hresult _]; [apply empty_io_writable |].
  eexists. split; [exact Hresult | reflexivity].
Defined.

(** C3, as stated, fails: under the handlers' options a null field is not
    left empty but written as two double quotes, exactly as the empty string
    is, so a row holding null and a row holding the empty string give the
    same file and no reader can tell them apart. *)
Lemma null_field_is_quoted :
  Csv.stringify_field handler_options VNull ≠ Some EmptyString
  ∧ Csv.stringify_field handler_options VNull = Some (Csv.quote +:+ Csv.quote)
  ∧ Csv.stringify_field handler_options VNull
    = Csv.stringify_field handler_options (VString EmptyString)
  ∧ Csv.run no_walk handler_options [[("note", VNull)]]
    = Csv.run no_walk handler_options [[("note", VString EmptyString)]]
  ∧ Csv.run no_walk handler_options [[("note", VNull)]]
    = Csv.Ended (ident "note" +:+ Csv.record_delimiter
                 +:+ ident EmptyString +:+ Csv.record_delimiter)
  ∧ [("note", VNull)] ≠ [("note", VString EmptyString)].
Proof. by repeat split. Qed.

(** C3 (amended): for every row and column value serialized by
    create_fromjson_tofs or saveQueryResult, every field that is written,
    null ones included, is wrapped in double quotes, with each double quote
    inside it doubled; a valid date is written as its ISO-8601 text, the
    text of a date and time of day that exist and are that date's; the empty
    string, null and undefined are all written as the quoted empty field, so
    the difference between null and the empty string is not kept.  A cell is
    the row's own value under the column; where the row lacks the column and
    the column is a plain name, it is undefined, hence the quoted empty field
    too.  An invalid date and a function are no field at all. *)
Theorem every_field_is_quoted (walk : Walk) (columns : list string) (row : Row)
    (field : Value) :
  Csv.stringify_field handler_options field
    = (fun text =>
         Csv.quote
         +:+ Str.replace_all Str.dquote (Csv.quote +:+ Csv.quote) text
         +:+ Csv.quote) <$> field_text field
  ∧ Csv.stringify_record walk handler_options columns row
    = (fun texts => Str.join Csv.delimiter (quoted_text <$> texts))
        <$> cell_texts walk columns row
  ∧ (∀ time, JsDate.valid time = true →
       Csv.stringify_field handler_options (VDate time)
         = Some (Csv.quote +:+ JsDate.toISOString time +:+ Csv.quote)
       ∧ ∃ y m d h mi s ms,
           JsDate.toISOString time = iso_8601 y m d h mi s ms
           ∧ date_time y m d h mi s ms
           ∧ time_of y m d h mi s ms = time)
  ∧ (∀ time, JsDate.valid time = false →
       Csv.stringify_field handler_options (VDate time) = None)
  ∧ Csv.stringify_field handler_options VFunction = None
  ∧ (∀ s, field_text (VString s) = Some s)
  ∧ Csv.stringify_field handler_options (VString EmptyString)
    = Some (Csv.quote +:+ Csv.quote)
  ∧ Csv.stringify_field handler_options VNull = Some (Csv.quote +:+ Csv.quote)
  ∧ Csv.stringify_field handler_options VUndefined = Some (Csv.quote +:+ Csv.quote)
  ∧ (∀ key value, own row key = Some value → get walk row key = value)
  ∧ (∀ key, own row key = None → plain_key key → get walk row key = VUndefined).
Proof.
  split; [apply stringify_field_quoted |].
  split; [apply stringify_record_texts |].
  split.
  { intros time Hvalid. split; [| apply toISOString_spec].
    rewrite stringify_field_quoted. unfold field_text, Csv.cast. rewrite Hvalid.
    cbn [fmap option_fmap option_map]. unfold quoted_text.
    by rewrite (replace_all_absent _ _ _ (toISOString_no_quote time)). }
  split.
  { intros time Hvalid. unfold Csv.stringify_field, Csv.cast. by rewrite Hvalid. }
  split_and!; try done.
  - intros key value. apply get_own.
  - intros key. apply get_plain.
Qed.

Lemma every_field_is_quoted_witness :
  Csv.stringify_field handler_options (VDate 1704164645000)
    = Some (ident "2024-01-02T03:04:05.000Z")
  ∧ Csv.stringify_field handler_options (VDate 8640000000000001) = None
  ∧ get no_walk [("id", VNumber "1")] "id" = VNumber "1"
  ∧ get no_walk [("id", VNumber "1")] "title" = VUndefined.
Proof.
  pose proof (every_field_is_quoted no_walk ["id"; "title"] [("id", VNumber "1")]
                VNull) as H.
  destruct H as (_ & _ & Hdate & Hinvalid & _ & _ & _ & _ & _ & Hown & Hplain).
  split; [exact (proj1 (Hdate 1704164645000%Z eq_refl)) |].
  split; [exact (Hinvalid 8640000000000001%Z eq_refl) |].
  split; [exact (Hown "id" (VNumber "1") eq_refl) |].
  apply (Hplain "title"); [reflexivity |].
  split; [reflexivity |]. split; [| discriminate].
  unfold method_names. rewrite !not_elem_of_cons.
  repeat split; try discriminate. apply not_elem_of_nil.
Defined.

(** C4: when the statement returns zero rows, the query and run-query tools
    answer without an error flag, with rowCount 0 and rows empty, and
    saveQueryResult answers without an error flag, with rowCount 0, and
    leaves the file system as it was, no stream opened. *)
Theorem zero_rows_is_success (walk : Walk) (p : PostgreSQL.Pool Row) (io : Io)
    (parameterizedQuery : string) (values : list Value) (schema : option string)
    (filename path : string) (rows : option (list Row)) :
  outcome p parameterizedQuery (Some values) = PostgreSQL.Resolves rows →
  default [] rows = [] →
  PostgresQuery.queryHandlerAsync parameterizedQuery values schema p
    = (Fulfilled {| content := "No result found";
                    structuredContent :=
                      Some {| PostgresQuery.rowCount := 0; PostgresQuery.rows := [] |};
                    isError := false |},
       ran p parameterizedQuery (Some values))
  ∧ Postgres.runQueryHandlerAsync parameterizedQuery values p
    = (Fulfilled {| content := "No result found";
                    structuredContent :=
                      Some {| Postgres.rowCount := 0; Postgres.rows := [] |};
                    isError := false |},
       ran p parameterizedQuery (Some values))
  ∧ Postgres.saveQueryResultHandlerAsync walk
      {| Postgres.parameterizedQuery := parameterizedQuery;
         Postgres.values := values;
         Postgres.filename := filename;
         Postgres.path := path |} (p, io)
    = (Fulfilled {| content := "No CSV file generated because no result was found";
                    structuredContent :=
                      Some {| Postgres.sq_rowCount := 0;
                              Postgres.fullPath := EmptyString |};
                    isError := false |},
       (ran p parameterizedQuery (Some values), io)).
Proof.
  intros Hout Hnone. repeat split.
  - unfold PostgresQuery.queryHandlerAsync.
    rewrite (bind_fulfilled _ _ _ _ _ (queryAsync_resolves _ _ _ _ Hout)).
    by rewrite Hnone.
  - unfold Postgres.runQueryHandlerAsync.
    rewrite (bind_fulfilled _ _ _ _ _ (queryAsync_resolves _ _ _ _ Hout)).
    by rewrite Hnone.
  - exact (save_no_rows walk
             {| Postgres.parameterizedQuery := parameterizedQuery;
                Postgres.values := values;
                Postgres.filename := filename;
                Postgres.path := path |} p io rows Hout Hnone).
Qed.

Lemma zero_rows_is_success_witness :
  snd (Postgres.saveQueryResultHandlerAsync no_walk
         {| Postgres.parameterizedQuery := "SELECT 1 WHERE false";
            Postgres.values := [];
            Postgres.filename := "report.csv";
            Postgres.path := "/srv/out" |} (empty_pool, empty_io))
  = (ran empty_pool "SELECT 1 WHERE false" (Some []), empty_io).
Proof.
  pose proof (zero_rows_is_success no_walk empty_pool empty_io "SELECT 1 WHERE false" []
                (Some "public") "report.csv" "/srv/out" (Some []) eq_refl eq_refl) as H.
  destruct H as (_ & _ & Hsave). by rewrite Hsave.
Defined.

(** C5: whatever the database does with a statement, queryAsync fulfils (it
    never rejects): a failed execution gives a result with the error flag set,
    the thrown value itself as the message and no data; a successful one
    gives the rows (none when the driver reports none) and no error flag. *)
Theorem queryAsync_never_throws {T : Type} (p : PostgreSQL.Pool T)
    (parameterizedQuery : string) (values : option (list Value)) :
  ∃ result p',
    PostgreSQL.queryAsync parameterizedQuery values p = (Fulfilled result, p')
    ∧ match outcome p parameterizedQuery values with
      | PostgreSQL.Rejects err =>
          PostgreSQL.error result = Some true
          ∧ PostgreSQL.message result = PostgreSQL.Thrown err
          ∧ PostgreSQL.data result = []
      | PostgreSQL.Resolves rows =>
          PostgreSQL.error result = None
          ∧ PostgreSQL.failed result = false
          ∧ PostgreSQL.data result = default [] rows
      end.
Proof.
  destruct (outcome p parameterizedQuery values) as [rows|err] eqn:Hout.
  - eexists _, _. split; [by apply queryAsync_resolves |]. done.
  - eexists _, _. split; [by apply queryAsync_rejects |]. done.
Qed.

(** C6, as stated, fails: when the statement is turned down, saveQueryResult,
    which produces the report, runs it once and no second time, opens no
    stream, and answers with the message of that first failure, not with the
    message a retry would have met; the query tool does the same. *)
Lemma query_failure_is_not_retried :
  let saved := Postgres.saveQueryResultHandlerAsync no_walk
                 {| Postgres.parameterizedQuery := "SELECT title FROM Series";
                    Postgres.values := [];
                    Postgres.filename := "report.csv";
                    Postgres.path := "/srv/out" |} (failing_pool, empty_io) in
  let out := PostgresQuery.queryHandlerAsync "SELECT title FROM Series" []
               (Some "public") failing_pool in
  PostgreSQL.executed (fst (snd saved)) = [("SELECT title FROM Series", Some [])]
  ∧ List.length (PostgreSQL.executed (fst (snd saved))) ≠ 2
  ∧ fst saved
    = Fulfilled {| content := "Error querying database: error: permission denied for table Series";
                   structuredContent := None;
                   isError := true |}
  ∧ fst saved
    ≠ Fulfilled {| content := "Error querying database: error: column title does not exist";
                   structuredContent := None;
                   isError := true |}
  ∧ snd (snd saved) = empty_io
  ∧ List.length (PostgreSQL.executed (snd out)) = 1
  ∧ fst out
    = Fulfilled {| content := "Error querying database: error: permission denied for table Series";
                   structuredContent := None;
                   isError := true |}
  ∧ fst out
    ≠ Fulfilled {| content := "Error querying database: error: column title does not exist";
                   structuredContent := None;
                   isError := true |}.
Proof. by repeat split. Qed.

(** C6 (amended): when a statement fails, saveQueryResult and the query
    tools have run it exactly once, have opened no stream, and surface that
    failure at once, with its message; the code makes no corrective retry.
    When the write stream fails, saveQueryResult and create_fromjson_tofs
    surface that failure with its message after that one stream, opened
    once; nothing is retried, the statement having run once. *)
Theorem query_failure_surfaces_at_once (walk : Walk) (p : PostgreSQL.Pool Row)
    (io : Io) (save : Postgres.saveQueryResultInput) (schema : option string)
    (create : CsvGenerator.createFromJsonToFSInput) :
  let text := Postgres.parameterizedQuery save in
  let values := Postgres.values save in
  let savePath := Path.join [Postgres.path save; Postgres.filename save] in
  let createPath :=
    Path.join [CsvGenerator.path create; CsvGenerator.filename create] in
  PostgreSQL.executed (ran p text (Some values))
    = PostgreSQL.executed p ++ [(text, Some values)]
  ∧ (∀ err, outcome p text (Some values) = PostgreSQL.Rejects err →
       Postgres.saveQueryResultHandlerAsync walk save (p, io)
         = (Fulfilled {| content := "Error querying database: " +:+ error_toString err;
                         structuredContent := None;
                         isError := true |},
            (ran p text (Some values), io))
       ∧ PostgresQuery.queryHandlerAsync text values schema p
         = (Fulfilled {| content := "Error querying database: " +:+ error_toString err;
                         structuredContent := None;
                         isError := true |},
            ran p text (Some values))
       ∧ Postgres.runQueryHandlerAsync text values p
         = (Fulfilled {| content := "Error querying database: " +:+ error_toString err;
                         structuredContent := None;
                         isError := true |},
            ran p text (Some values)))
  ∧ (∀ rows data message io',
       outcome p text (Some values) = PostgreSQL.Resolves rows →
       default [] rows ≠ [] →
       Csv.run walk handler_options (default [] rows) = Csv.Ended data →
       stream_run savePath data io = (Error message, io') →
       Postgres.saveQueryResultHandlerAsync walk save (p, io)
         = (Fulfilled {| content := "Error creating file: " +:+ message;
                         structuredContent := None;
                         isError := true |},
            (ran p text (Some values), io'))
       ∧ opened io' = opened io ++ [savePath])
  ∧ (∀ data message io',
       Csv.run walk handler_options (CsvGenerator.contents create) = Csv.Ended data →
       stream_run createPath data io = (Error message, io') →
       CsvGenerator.createFromJsonToFSHandlerAsync walk create io
         = (Fulfilled {| content := "Error creating file: " +:+ message;
                         structuredContent := None;
                         isError := true |}, io')
       ∧ opened io' = opened io ++ [createPath]).
Proof.
  cbv zeta. split; [done |]. split_and!.
  - intros err Hout. split; [by apply save_fails |]. split.
    + unfold PostgresQuery.queryHandlerAsync.
      by rewrite (bind_fulfilled _ _ _ _ _ (queryAsync_rejects _ _ _ _ Hout)).
    + unfold Postgres.runQueryHandlerAsync.
      by rewrite (bind_fulfilled _ _ _ _ _ (queryAsync_rejects _ _ _ _ Hout)).
  - intros rows data message io' Hout Hrows Hrun Hstream.
    pose proof (stream_run_opened
                  (Path.join [Postgres.path save; Postgres.filename save]) data io)
      as Hopened.
    rewrite Hstream in Hopened. split; [| exact Hopened].
    rewrite (save_as_create walk save p io rows Hout Hrows).
    by rewrite (create_errors walk
                  {| CsvGenerator.filename := Postgres.filename save;
                     CsvGenerator.path := Postgres.path save;
                     CsvGenerator.contents := default [] rows |}
                  io io' data message Hrun Hstream).
  - intros data message io' Hrun Hstream.
    pose proof (stream_run_opened
                  (Path.join [CsvGenerator.path create; CsvGenerator.filename create])
                  data io) as Hopened.
    rewrite Hstream in Hopened. split; [| exact Hopened].
    by apply (create_errors walk create io io' data message).
Qed.

Lemma query_failure_surfaces_at_once_witness :
  PostgreSQL.executed
    (fst (snd (Postgres.saveQueryResultHandlerAsync no_walk
                 {| Postgres.parameterizedQuery := "SELECT title FROM Series";
                    Postgres.values := [];
                    Postgres.filename := "report.csv";
                    Postgres.path := "/srv/out" |} (failing_pool, readonly_io))))
    = [("SELECT title FROM Series", Some [])]
  ∧ opened (snd (snd (Postgres.saveQueryResultHandlerAsync no_walk
                        {| Postgres.parameterizedQuery := "SELECT id, title FROM Series";
                           Postgres.values := [];
                           Postgres.filename := "report.csv";
                           Postgres.path := "/srv/out" |} (rows_pool, readonly_io))))
    = ["/srv/out/report.csv"]
  ∧ opened (snd (CsvGenerator.createFromJsonToFSHandlerAsync no_walk
                   {| CsvGenerator.filename := "report.csv";
                      CsvGenerator.path := "/srv/out";
                      CsvGenerator.contents := part_one |} full_io))
    = ["/srv/out/report.csv"].
Proof.
  split_and!.
  - pose proof (query_failure_surfaces_at_once no_walk failing_pool readonly_io
                  {| Postgres.parameterizedQuery := "SELECT title FROM Series";
                     Postgres.values := [];
                     Postgres.filename := "report.csv";
                     Postgres.path := "/srv/out" |} (Some "public")
                  {| CsvGenerator.filename := "report.csv";
                     CsvGenerator.path := "/srv/out";
                     CsvGenerator.contents := part_one |}) as H.
    cbv zeta in H. destruct H as (_ & Hquery & _).
    destruct (Hquery permission_denied eq_refl) as (Hsave & _).
    by rewrite Hsave.
  - pose proof (query_failure_surfaces_at_once no_walk rows_pool readonly_io
                  {| Postgres.parameterizedQuery := "SELECT id, title FROM Series";
                     Postgres.values := [];
                     Postgres.filename := "report.csv";
                     Postgres.path := "/srv/out" |} (Some "public")
                  {| CsvGenerator.filename := "report.csv";
                     CsvGenerator.path := "/srv/out";
                     CsvGenerator.contents := part_one |}) as H.
    cbv zeta in H. destruct H as (_ & _ & Hsave & _).
    destruct (Hsave (Some part_one) _ _ _ eq_refl ltac:(discriminate) eq_refl eq_refl)
      as (Hrun & Hopened).
    rewrite Hrun. exact Hopened.
  - pose proof (query_failure_surfaces_at_once no_walk rows_pool full_io
                  {| Postgres.parameterizedQuery := "SELECT id, title FROM Series";
                     Postgres.values := [];
                     Postgres.filename := "report.csv";
                     Postgres.path := "/srv/out" |} (Some "public")
                  {| CsvGenerator.filename := "report.csv";
                     CsvGenerator.path := "/srv/out";
                     CsvGenerator.contents := part_one |}) as H.
    cbv zeta in H. destruct H as (_ & _ & _ & Hcreate).
    destruct (Hcreate _ _ _ eq_refl eq_refl) as (Hrun & Hopened).
    rewrite Hrun. exact Hopened.
Defined.

(** C7, as stated, fails: no output root is checked.  With /srv/out as the
    designated root, a request for the directory /etc is carried out, and so
    is one whose file name climbs out of the root. *)
Lemma path_outside_root_is_written :
  let outside := {| CsvGenerator.filename := "report.csv";
                    CsvGenerator.path := "/etc";
                    CsvGenerator.contents := sample_rows |} in
  let climbing := {| CsvGenerator.filename := "../../etc/report.csv";
                     CsvGenerator.path := "/srv/out";
                     CsvGenerator.contents := sample_rows |} in
  let written := CsvGenerator.createFromJsonToFSHandlerAsync no_walk outside empty_io in
  let climbed := CsvGenerator.createFromJsonToFSHandlerAsync no_walk climbing empty_io in
  Path.under "/srv/out" "/etc" = false
  ∧ Path.under "/srv/out" "/etc/report.csv" = false
  ∧ (∃ result, fst written = Fulfilled result ∧ isError result = false)
  ∧ is_Some (files (disk (snd written)) !! "/etc/report.csv")
  ∧ (∃ result, fst climbed = Fulfilled result ∧ isError result = false)
  ∧ is_Some (files (disk (snd climbed)) !! "/etc/report.csv").
Proof.
  cbv zeta.
  assert (∃ data, Csv.run no_walk handler_options sample_rows = Csv.Ended data)
    as [data Hrun] by (eexists; reflexivity).
  rewrite (create_finishes no_walk
             {| CsvGenerator.filename := "report.csv";
                CsvGenerator.path := "/etc";
                CsvGenerator.contents := sample_rows |}
             empty_io data Hrun (empty_io_writable _ _)).
  rewrite (create_finishes no_walk
             {| CsvGenerator.filename := "../../etc/report.csv";
                CsvGenerator.path := "/srv/out";
                CsvGenerator.contents := sample_rows |}
             empty_io data Hrun (empty_io_writable _ _)).
  cbn [fst snd isError files disk put CsvGenerator.path CsvGenerator.filename].
  change (Path.join ["/etc"; "report.csv"]) with "/etc/report.csv".
  change (Path.join ["/srv/out"; "../../etc/report.csv"]) with "/etc/report.csv".
  rewrite lookup_insert_eq.
  split; [done |]. split; [done |]. split; [by eexists |]. split; [done |].
  split; [by eexists | done].
Qed.

(** C7 (amended): create_fromjson_tofs and saveQueryResult write at
    join(path, filename) wherever that lies; whatever directory is taken as
    the output root, a request outside it whose rows can be written succeeds
    when its write stream does, and leaves its file there.  A request is
    turned down with an error only for what its write stream met, never for
    its path. *)
Theorem create_checks_no_root (walk : Walk) (root : string)
    (input : CsvGenerator.createFromJsonToFSInput) (io : Io) (data : string)
    (p : PostgreSQL.Pool Row) (parameterizedQuery : string) (values : list Value)
    (rows : option (list Row)) :
  let fullPath := Path.join [CsvGenerator.path input; CsvGenerator.filename input] in
  let save := {| Postgres.parameterizedQuery := parameterizedQuery;
                 Postgres.values := values;
                 Postgres.filename := CsvGenerator.filename input;
                 Postgres.path := CsvGenerator.path input |} in
  Path.under root (CsvGenerator.path input) = false →
  Csv.run walk handler_options (CsvGenerator.contents input) = Csv.Ended data →
  outcome p parameterizedQuery (Some values) = PostgreSQL.Resolves rows →
  default [] rows = CsvGenerator.contents input →
  CsvGenerator.contents input ≠ [] →
  match stream_run fullPath data io with
  | (Finish, io') =>
      CsvGenerator.createFromJsonToFSHandlerAsync walk input io
        = (Fulfilled
             {| content := created_text input;
                structuredContent :=
                  Some {| CsvGenerator.fullPath := fullPath;
                          CsvGenerator.rowCount :=
                            List.length (CsvGenerator.contents input) |};
                isError := false |}, io')
      ∧ Postgres.saveQueryResultHandlerAsync walk save (p, io)
        = (Fulfilled
             {| content := created_text input;
                structuredContent :=
                  Some {| Postgres.sq_rowCount :=
                            List.length (CsvGenerator.contents input);
                          Postgres.fullPath := fullPath |};
                isError := false |},
           (ran p parameterizedQuery (Some values), io'))
      ∧ files (disk io') !! fullPath = Some data
  | (Error message, io') =>
      CsvGenerator.createFromJsonToFSHandlerAsync walk input io
        = (Fulfilled {| content := "Error creating file: " +:+ message;
                        structuredContent := None;
                        isError := true |}, io')
      ∧ Postgres.saveQueryResultHandlerAsync walk save (p, io)
        = (Fulfilled {| content := "Error creating file: " +:+ message;
                        structuredContent := None;
                        isError := true |},
           (ran p parameterizedQuery (Some values), io'))
  end.
Proof.
  cbv zeta. intros _ Hrun Hout Hrows Hsome.
  pose proof (save_as_create walk
                {| Postgres.parameterizedQuery := parameterizedQuery;
                   Postgres.values := values;
                   Postgres.filename := CsvGenerator.filename input;
                   Postgres.path := CsvGenerator.path input |} p io rows Hout) as Hsave.
  cbv zeta in Hsave. rewrite Hrows in Hsave. specialize (Hsave Hsome).
  cbn [Postgres.filename Postgres.path Postgres.parameterizedQuery Postgres.values]
    in Hsave.
  assert ({| CsvGenerator.filename := CsvGenerator.filename input;
             CsvGenerator.path := CsvGenerator.path input;
             CsvGenerator.contents := CsvGenerator.contents input |} = input) as Heta
    by (by destruct input).
  rewrite Heta in Hsave. rewrite Hsave.
  destruct (stream_run _ data io) as [[|message] io'] eqn:Hstream.
  - destruct (stream_run_finish _ _ _ _ Hstream) as [Hwritable ->].
    rewrite (create_finishes walk input io data Hrun Hwritable).
    cbn [fst snd saved_completion disk put files]. rewrite lookup_insert_eq.
    by repeat split.
  - by rewrite (create_errors walk input io io' data message Hrun Hstream).
Qed.

Lemma create_checks_no_root_witness :
  Path.under "/srv/out" "/etc" = false
  ∧ is_Some (files (disk (snd (CsvGenerator.createFromJsonToFSHandlerAsync no_walk
                                  {| CsvGenerator.filename := "report.csv";
                                     CsvGenerator.path := "/etc";
                                     CsvGenerator.contents := part_one |} empty_io)))
             !! "/etc/report.csv").
Proof.
  split; [reflexivity |].
  assert (∃ data, Csv.run no_walk handler_options part_one = Csv.Ended data)
    as [data Hrun] by (eexists; reflexivity).
  pose proof (create_checks_no_root no_walk "/srv/out"
                {| CsvGenerator.filename := "report.csv";
                   CsvGenerator.path := "/etc";
                   CsvGenerator.contents := part_one |} empty_io data
                rows_pool "SELECT id, title FROM Series" [] (Some part_one)
                eq_refl Hrun eq_refl eq_refl ltac:(discriminate)) as H.
  cbv zeta in H.
  rewrite (stream_run_writable _ _ _ (empty_io_writable _ data)) in H.
  destruct H as (Hcreate & _ & Hfile). rewrite Hcreate. cbn [snd].
  exists data. exact Hfile.
Defined.

(** ** Grouping the catalog rows into tables *)

Section Grouping.

Import PostgresQuery.

Lemma elem_of_first_seen {A} `{EqDecision A} (l : list A) (x : A) :
  x ∈ first_seen l ↔ x ∈ l.
Proof.
  induction l as [|y l IH]; [done |].
  cbn [first_seen]. rewrite !elem_of_cons, list_elem_of_filter, IH.
  destruct (decide (x = y)); intuition.
Qed.

Lemma NoDup_first_seen {A} `{EqDecision A} (l : list A) : NoDup (first_seen l).
Proof.
  induction l as [|y l IH]; [constructor |].
  cbn [first_seen]. constructor.
  - rewrite list_elem_of_filter. intros [Hne _]. by apply Hne.
  - by apply NoDup_filter.
Qed.

Lemma same_table_spec (value : CatalogRow.t) (row : Table.t) :
  same_table value row = true ↔ table_key row = row_key value.
Proof.
  unfold same_table, table_key, row_key.
  rewrite andb_true_iff, !String.eqb_eq. split.
  - intros [Hschema Hname]. by rewrite Hschema, Hname.
  - by intros [= Hschema Hname].
Qed.

Lemma same_table_false (value : CatalogRow.t) (row : Table.t) :
  same_table value row = false ↔ table_key row ≠ row_key value.
Proof.
  rewrite <- same_table_spec. by destruct (same_table value row).
Qed.

Lemma group_step_nil (value : CatalogRow.t) :
  group_step [] value = [push_column (column_of value) (new_table value)].
Proof. reflexivity. Qed.

(** The step seen along the list of tables: the first table of the row's
    key takes the column, and a new table is put at the end when there is
    none. *)
Lemma group_step_cons (row : Table.t) (tables : list Table.t)
    (value : CatalogRow.t) :
  group_step (row :: tables) value
  = if same_table value row
    then push_column (column_of value) row :: tables
    else row :: group_step tables value.
Proof.
  unfold group_step. cbn [findIndex].
  destruct (same_table value row); [reflexivity |].
  destruct (findIndex (same_table value) tables) as [index|];
    cbn [fmap option_fmap option_map]; [reflexivity |].
  fold (new_table value).
  replace (List.length ((row :: tables) ++ [new_table value]) - 1)
    with (S (List.length (tables ++ [new_table value]) - 1))
    by (cbn [app List.length]; rewrite length_app; cbn [List.length]; lia).
  reflexivity.
Qed.

Lemma table_key_push (c : Column.t) (row : Table.t) :
  table_key (push_column c row) = table_key row.
Proof. reflexivity. Qed.

Lemma group_step_keys (tables : list Table.t) (value : CatalogRow.t) :
  table_key <$> group_step tables value
  = (table_key <$> tables)
    ++ (if decide (row_key value ∈ table_key <$> tables) then [] else [row_key value]).
Proof.
  induction tables as [|row tables IH].
  - rewrite group_step_nil. cbn. rewrite decide_False; [done | apply not_elem_of_nil].
  - rewrite group_step_cons. destruct (same_table value row) eqn:Hsame.
    + apply same_table_spec in Hsame.
      rewrite !fmap_cons, table_key_push, decide_True, app_nil_r; [done |].
      rewrite Hsame. apply list_elem_of_here.
    + apply same_table_false in Hsame.
      rewrite !fmap_cons, IH. cbn [app]. f_equal. f_equal.
      destruct (decide (row_key value ∈ table_key <$> tables)) as [Hin|Hout].
      * rewrite decide_True; [done |]. by apply list_elem_of_further.
      * rewrite decide_False; [done |]. rewrite elem_of_cons.
        intros [Heq|Hin]; [congruence | done].
Qed.

Lemma group_step_columns (key : string * string) (tables : list Table.t)
    (value : CatalogRow.t) :
  columns_of key (group_step tables value)
  = columns_of key tables
    ++ (if decide (row_key value = key) then [column_of value] else []).
Proof.
  induction tables as [|row tables IH].
  - rewrite group_step_nil. cbn [columns_of].
    change (table_key (push_column (column_of value) (new_table value)))
      with (row_key value).
    by destruct (decide (row_key value = key)).
  - rewrite group_step_cons. destruct (same_table value row) eqn:Hsame.
    + apply same_table_spec in Hsame. cbn [columns_of].
      rewrite table_key_push, Hsame.
      destruct (decide (row_key value = key)); [done |].
      by rewrite app_nil_r.
    + apply same_table_false in Hsame. cbn [columns_of].
      destruct (decide (table_key row = key)) as [<-|Hother]; [| exact IH].
      rewrite decide_False, app_nil_r; [done | congruence].
Qed.

End Grouping.

Section GroupingAll.

Import PostgresQuery.

Lemma filter_not_in_nil {A} `{EqDecision A} (l : list A) :
  filter (fun x => x ∉ []) l = l.
Proof.
  induction l as [|x l IH]; [done |].
  rewrite filter_cons_True by apply not_elem_of_nil. by rewrite IH.
Qed.

(** The keys after a run of steps: those there before, then the new ones in
    the order they first come up. *)
Lemma group_fold_keys (data : list CatalogRow.t) :
  ∀ acc : list Table.t,
    table_key <$> fold_left group_step data acc
    = (table_key <$> acc)
      ++ filter (fun key => key ∉ table_key <$> acc)
           (first_seen (row_key <$> data)).
Proof.
  induction data as [|value data IH]; intros acc.
  - cbn. by rewrite app_nil_r.
  - cbn [fold_left]. rewrite IH, group_step_keys, fmap_cons.
    cbn [first_seen].
    destruct (decide (row_key value ∈ table_key <$> acc)) as [Hin|Hout].
    + rewrite app_nil_r, filter_cons_False by (intros Hout; by apply Hout).
      f_equal. rewrite list_filter_filter_l; [done |].
      intros key Hkey ->. by apply Hkey.
    + rewrite filter_cons_True by done.
      rewrite <- app_assoc. cbn [app]. f_equal. f_equal.
      rewrite list_filter_filter. apply list_filter_iff.
      intros key. rewrite not_elem_of_app, list_elem_of_singleton. done.
Qed.

Lemma group_fold_columns (key : string * string) (data : list CatalogRow.t) :
  ∀ acc : list Table.t,
    columns_of key (fold_left group_step data acc)
    = columns_of key acc ++ (column_of <$> rows_of key data).
Proof.
  induction data as [|value data IH]; intros acc.
  - cbn. by rewrite app_nil_r.
  - cbn [fold_left]. rewrite IH, group_step_columns. unfold rows_of.
    rewrite filter_cons.
    destruct (decide (row_key value = key)).
    + by rewrite fmap_cons, <- app_assoc.
    + by rewrite app_nil_r.
Qed.

Lemma columns_of_elem (tables : list Table.t) (row : Table.t) :
  NoDup (table_key <$> tables) → row ∈ tables →
  columns_of (table_key row) tables = Table.columns row.
Proof.
  induction tables as [|first tables IH]; intros Hdistinct Hin.
  - by apply elem_of_nil in Hin.
  - rewrite fmap_cons in Hdistinct. apply NoDup_cons in Hdistinct as [Hfresh Hrest].
    cbn [columns_of]. apply elem_of_cons in Hin as [->|Hin].
    + by rewrite decide_True.
    + rewrite decide_False; [by apply IH |].
      intros Heq. apply Hfresh. rewrite Heq. by apply list_elem_of_fmap_2.
Qed.

Lemma group_tables_keys (data : list CatalogRow.t) :
  table_key <$> group_tables data = first_seen (row_key <$> data).
Proof.
  unfold group_tables. rewrite group_fold_keys.
  exact (filter_not_in_nil (first_seen (row_key <$> data))).
Qed.

Lemma group_tables_distinct (data : list CatalogRow.t) :
  NoDup (table_key <$> group_tables data).
Proof. rewrite group_tables_keys. apply NoDup_first_seen. Qed.

Lemma group_tables_columns (data : list CatalogRow.t) :
  Forall (fun row => Table.columns row = column_of <$> rows_of (table_key row) data)
    (group_tables data).
Proof.
  apply Forall_forall. intros row Hin.
  rewrite <- (columns_of_elem (group_tables data) row)
    by (done || apply group_tables_distinct).
  unfold group_tables. by rewrite group_fold_columns.
Qed.

Lemma group_tables_nonempty (data : list CatalogRow.t) :
  Forall (fun row => Table.columns row ≠ []) (group_tables data).
Proof.
  pose proof (group_tables_columns data) as Hcols.
  rewrite Forall_forall in Hcols. apply Forall_forall. intros row Hin.
  rewrite (Hcols row Hin).
  assert (table_key row ∈ row_key <$> data) as Hkey.
  { rewrite <- elem_of_first_seen, <- group_tables_keys.
    by apply list_elem_of_fmap_2. }
  apply list_elem_of_fmap in Hkey as (value & Hkey & Hvalue).
  assert (value ∈ rows_of (table_key row) data) as Hrow.
  { unfold rows_of. by rewrite list_elem_of_filter. }
  intros Hnil. apply fmap_nil_inv in Hnil. rewrite Hnil in Hrow.
  by apply elem_of_nil in Hrow.
Qed.

Lemma describeTables_resolves (p : PostgreSQL.Pool CatalogRow.t)
    (schema : option string) (rows : option (list CatalogRow.t)) :
  outcome p describeTables_query (Some [VString (schema_of schema)])
    = PostgreSQL.Resolves rows →
  describeTablesHandlerAsync schema p
  = (Fulfilled {| content := "Found " +:+ pretty (tableCount (default [] rows))
                             +:+ " tables in the '" +:+ schema_of schema
                             +:+ "' schema";
                  structuredContent :=
                    Some {| tables := group_tables (default [] rows) |};
                  isError := false |},
     ran p describeTables_query (Some [VString (schema_of schema)])).
Proof.
  intros Hout. unfold describeTablesHandlerAsync.
  by rewrite (bind_fulfilled _ _ _ _ _ (queryAsync_resolves _ _ _ _ Hout)).
Qed.

End GroupingAll.

Example sample_catalog_grouped :
  PostgresQuery.group_tables sample_catalog
  = [ {| PostgresQuery.Table.schema := "public";
         PostgresQuery.Table.name := "Series";
         PostgresQuery.Table.columns :=
           PostgresQuery.column_of
             <$> [catalog_row "public" "Series" "Id" "integer";
                  catalog_row "public" "Series" "Title" "text"] |};
      {| PostgresQuery.Table.schema := "public";
         PostgresQuery.Table.name := "Episodes";
         PostgresQuery.Table.columns :=
           PostgresQuery.column_of
             <$> [catalog_row "public" "Episodes" "Id" "integer";
                  catalog_row "public" "Episodes" "SeriesId" "integer";
                  catalog_row "public" "Episodes" "Title" "text"] |} ].
Proof. reflexivity. Qed.



(** C9, as stated, fails for describeTable: asked for a table the catalog has
    no column of, it answers without an error flag, with a descriptor whose
    columns are empty. *)
Lemma describeTable_unknown_table_has_no_columns :
  fst (PostgresQuery.describeTableHandlerAsync "Missing" None unknown_table_pool)
  = Fulfilled
      {| content := "Found 0 columns in the 'public." +:+ ident "Missing" +:+ "' table";
         structuredContent :=
           Some {| PostgresQuery.dt_schema := "public";
                   PostgresQuery.dt_table := "Missing";
                   PostgresQuery.dt_columns := [] |};
         isError := false |}.
Proof. reflexivity. Qed.

(** C9 (amended): in the answer of a successful describeTables call every
    table has at least one column and no two tables share their
    (schema, name) pair.  A successful describeTable call answers with the one
    table asked for, with exactly one column per catalog row returned, so
    with no column when the catalog returns no row. *)
Theorem introspection_tables_well_formed
    (p : PostgreSQL.Pool PostgresQuery.CatalogRow.t)
    (q : PostgreSQL.Pool PostgresQuery.ColumnRow.t) (schema : option string)
    (table : string) (rows : option (list PostgresQuery.CatalogRow.t))
    (cols : option (list PostgresQuery.ColumnRow.t)) :
  outcome p PostgresQuery.describeTables_query (Some [VString (schema_of schema)])
    = PostgreSQL.Resolves rows →
  outcome q PostgresQuery.describeTable_query
    (Some [VString table; VString (schema_of schema)])
    = PostgreSQL.Resolves cols →
  ∃ text tables text' columns,
    PostgresQuery.describeTablesHandlerAsync schema p
    = (Fulfilled {| content := text;
                    structuredContent := Some {| PostgresQuery.tables := tables |};
                    isError := false |},
       ran p PostgresQuery.describeTables_query (Some [VString (schema_of schema)]))
    ∧ Forall (fun row => PostgresQuery.Table.columns row ≠ []) tables
    ∧ NoDup (table_key <$> tables)
    ∧ PostgresQuery.describeTableHandlerAsync table schema q
      = (Fulfilled {| content := text';
                      structuredContent :=
                        Some {| PostgresQuery.dt_schema := schema_of schema;
                                PostgresQuery.dt_table := table;
                                PostgresQuery.dt_columns := columns |};
                      isError := false |},
         ran q PostgresQuery.describeTable_query
           (Some [VString table; VString (schema_of schema)]))
    ∧ PostgresQuery.Column.name <$> columns
      = PostgresQuery.ColumnRow.column_name <$> default [] cols.
Proof.
  intros Hp Hq. eexists _, _, _, _.
  split; [by apply describeTables_resolves |].
  split; [apply group_tables_nonempty |].
  split; [apply group_tables_distinct |].
  split.
  - unfold PostgresQuery.describeTableHandlerAsync.
    by rewrite (bind_fulfilled _ _ _ _ _ (queryAsync_resolves _ _ _ _ Hq)).
  - cbn [PostgreSQL.data]. rewrite <- list_fmap_compose. by apply list_fmap_ext.
Qed.

Lemma introspection_tables_well_formed_witness :
  ∃ tables,
    structuredContent_of
      (fst (PostgresQuery.describeTablesHandlerAsync (Some "public") catalog_pool))
    = Some {| PostgresQuery.tables := tables |}
    ∧ Forall (fun row => PostgresQuery.Table.columns row ≠ []) tables.
Proof.
  destruct (introspection_tables_well_formed catalog_pool unknown_table_pool
              (Some "public") "Missing" (Some sample_catalog) (Some []) eq_refl eq_refl)
    as (text & tables & text' & columns & Hrun & Hcols & _).
  exists tables. by rewrite Hrun.
Defined.

(** C10: handed no rows, create_fromjson_tofs (its write stream opening)
    answers without an error flag, reports rowCount 0 and has created the
    file at join(path, filename), empty; saveQueryResult, when its query
    returns no rows, leaves the file system as it was and names no file. *)
Theorem create_from_no_rows_makes_a_file (walk : Walk)
    (input : CsvGenerator.createFromJsonToFSInput) (io : Io)
    (save : Postgres.saveQueryResultInput) (p : PostgreSQL.Pool Row)
    (rows : option (list Row)) :
  let fullPath := Path.join [CsvGenerator.path input; CsvGenerator.filename input] in
  let out := CsvGenerator.createFromJsonToFSHandlerAsync walk input io in
  let saved := Postgres.saveQueryResultHandlerAsync walk save (p, io) in
  CsvGenerator.contents input = [] →
  denied (disk io) !! fullPath = None →
  outcome p (Postgres.parameterizedQuery save) (Some (Postgres.values save))
    = PostgreSQL.Resolves rows →
  default [] rows = [] →
  fst out
    = Fulfilled
        {| content := created_text input;
           structuredContent :=
             Some {| CsvGenerator.fullPath := fullPath; CsvGenerator.rowCount := 0 |};
           isError := false |}
  ∧ files (disk (snd out)) !! fullPath = Some EmptyString
  ∧ snd (snd saved) = io
  ∧ structuredContent_of (fst saved)
    = Some {| Postgres.sq_rowCount := 0; Postgres.fullPath := EmptyString |}.
Proof.
  cbv zeta. intros Hnone Hfree Hout Hrows.
  assert (Csv.run walk handler_options (CsvGenerator.contents input)
          = Csv.Ended EmptyString) as Hrun by (by rewrite Hnone).
  assert (writable
            (Path.join [CsvGenerator.path input; CsvGenerator.filename input])
            EmptyString (disk io)) as Hwritable.
  { split; [done |]. intros room message _. cbn. lia. }
  rewrite (create_finishes walk input io _ Hrun Hwritable), Hnone.
  cbn [fst snd isError structuredContent files disk put List.length].
  rewrite lookup_insert_eq.
  by rewrite (save_no_rows walk save p io rows Hout Hrows).
Qed.

Lemma create_from_no_rows_makes_a_file_witness :
  files (disk (snd (CsvGenerator.createFromJsonToFSHandlerAsync no_walk
                      {| CsvGenerator.filename := "report.csv";
                         CsvGenerator.path := "/srv/out";
                         CsvGenerator.contents := [] |} empty_io)))
    !! "/srv/out/report.csv" = Some EmptyString
  ∧ snd (snd (Postgres.saveQueryResultHandlerAsync no_walk
                {| Postgres.parameterizedQuery := "SELECT 1 WHERE false";
                   Postgres.values := [];
                   Postgres.filename := "report.csv";
                   Postgres.path := "/srv/out" |} (empty_pool, empty_io)))
    = empty_io.
Proof.
  pose proof (create_from_no_rows_makes_a_file no_walk
                {| CsvGenerator.filename := "report.csv";
                   CsvGenerator.path := "/srv/out";
                   CsvGenerator.contents := [] |} empty_io
                {| Postgres.parameterizedQuery := "SELECT 1 WHERE false";
                   Postgres.values := [];
                   Postgres.filename := "report.csv";
                   Postgres.path := "/srv/out" |} empty_pool (Some [])
                eq_refl eq_refl eq_refl eq_refl) as H.
  cbv zeta in H. destruct H as (_ & Hfile & Hsaved & _).
  split; [exact Hfile | exact Hsaved].
Defined.

(** * Further properties *)

(** ** The file determines the table *)

Section Lossless.

Import Csv.

Lemma esc_empty : esc EmptyString = EmptyString.
Proof. reflexivity. Qed.

Lemma esc_cons_quote (text : string) :
  esc (String Str.dquote text) = String Str.dquote (String Str.dquote (esc text)).
Proof. reflexivity. Qed.

Lemma esc_cons_other (c : ascii) (text : string) :
  c ≠ Str.dquote → esc (String c text) = String c (esc text).
Proof.
  intros Hc. unfold esc. cbn [Str.replace_all].
  destruct (Ascii.eqb Str.dquote c) eqn:Heq; [| reflexivity].
  apply Ascii.eqb_eq in Heq. congruence.
Qed.

Lemma esc_cons (c : ascii) (text : string) :
  (c = Str.dquote ∧ esc (String c text) = String Str.dquote (String Str.dquote (esc text)))
  ∨ (c ≠ Str.dquote ∧ esc (String c text) = String c (esc text)).
Proof.
  destruct (decide (c = Str.dquote)) as [->|Hc].
  - left. split; [done | apply esc_cons_quote].
  - right. split; [done | by apply esc_cons_other].
Qed.

(** The end of a quoted text is unmistakable: a quote that no quote
    follows. *)
Lemma esc_prefix_free (text1 : string) :
  ∀ (text2 rest1 rest2 : string),
    no_quote_ahead rest1 → no_quote_ahead rest2 →
    esc text1 +:+ String Str.dquote rest1 = esc text2 +:+ String Str.dquote rest2 →
    text1 = text2 ∧ rest1 = rest2.
Proof.
  unfold no_quote_ahead.
  induction text1 as [|c1 text1 IH]; intros [|c2 text2] rest1 rest2 H1 H2 Heq.
  - rewrite esc_empty, !append_empty_l in Heq. by injection Heq as ->.
  - rewrite esc_empty, append_empty_l in Heq.
    destruct (esc_cons c2 text2) as [[-> Hesc]|[Hc Hesc]];
      rewrite Hesc, !append_cons in Heq.
    + injection Heq as Htail. subst rest1. by destruct H1.
    + injection Heq as Hhead Htail. by destruct Hc.
  - rewrite esc_empty, append_empty_l in Heq.
    destruct (esc_cons c1 text1) as [[-> Hesc]|[Hc Hesc]];
      rewrite Hesc, !append_cons in Heq.
    + injection Heq as Htail. subst rest2. by destruct H2.
    + injection Heq as Hhead Htail. by destruct Hc.
  - destruct (esc_cons c1 text1) as [[-> Hesc1]|[Hc1 Hesc1]];
      destruct (esc_cons c2 text2) as [[-> Hesc2]|[Hc2 Hesc2]];
      rewrite Hesc1, Hesc2, !append_cons in Heq.
    + injection Heq as Heq.
      destruct (IH _ _ _ H1 H2 Heq) as [-> ->]. done.
    + injection Heq as Hhead _. by destruct Hc2.
    + injection Heq as Hhead _. by destruct Hc1.
    + injection Heq as -> Heq.
      destruct (IH _ _ _ H1 H2 Heq) as [-> ->]. done.
Qed.

Lemma quoted_text_unfold (text rest : string) :
  quoted_text text +:+ rest = String Str.dquote (esc text +:+ String Str.dquote rest).
Proof.
  unfold quoted_text. fold (esc text).
  change quote with (String Str.dquote EmptyString).
  by rewrite !append_assoc, !append_cons, !append_empty_l.
Qed.

Lemma join_cons (sep x : string) (l : list string) :
  Str.join sep (x :: l)
  = x +:+ match l with [] => EmptyString | _ :: _ => sep +:+ Str.join sep l end.
Proof. destruct l; cbn [Str.join]; [by rewrite append_empty_r | done]. Qed.

Lemma ends_record_no_quote (rest : string) : ends_record rest → no_quote_ahead rest.
Proof.
  unfold ends_record, no_quote_ahead. destruct rest as [|c rest]; [done |].
  intros [Hq _] [= ->]. done.
Qed.

Lemma join_quoted_cons (text : string) (texts : list string) (rest : string) :
  Str.join delimiter (quoted_text <$> text :: texts) +:+ rest
  = quoted_text text +:+ record_tail texts rest.
Proof.
  rewrite fmap_cons, join_cons, append_assoc. f_equal.
  destruct texts as [|text' texts]; [done |].
  rewrite fmap_cons. cbn [record_tail]. by rewrite fmap_cons, append_assoc.
Qed.

Lemma record_tail_cons (text : string) (texts : list string) (rest : string) :
  record_tail (text :: texts) rest
  = String Str.comma (Str.join delimiter (quoted_text <$> text :: texts) +:+ rest).
Proof. reflexivity. Qed.

Lemma record_tail_no_quote (texts : list string) (rest : string) :
  ends_record rest → no_quote_ahead (record_tail texts rest).
Proof.
  destruct texts as [|text texts]; [apply ends_record_no_quote |].
  intros _. rewrite record_tail_cons. unfold no_quote_ahead. by cbn.
Qed.

(** The fields of a record are unmistakable as well. *)
Lemma fields_prefix_free (texts1 : list string) :
  ∀ (texts2 : list string) (rest1 rest2 : string),
    ends_record rest1 → ends_record rest2 →
    Str.join delimiter (quoted_text <$> texts1) +:+ rest1
    = Str.join delimiter (quoted_text <$> texts2) +:+ rest2 →
    texts1 = texts2 ∧ rest1 = rest2.
Proof.
  induction texts1 as [|text1 texts1 IH]; intros [|text2 texts2] rest1 rest2 H1 H2 Heq.
  - cbn in Heq. by rewrite !append_empty_l in Heq.
  - exfalso. rewrite join_quoted_cons, quoted_text_unfold in Heq.
    cbn in Heq. rewrite append_empty_l in Heq. subst rest1.
    by destruct H1 as [Hq _].
  - exfalso. rewrite join_quoted_cons, quoted_text_unfold in Heq.
    cbn in Heq. rewrite append_empty_l in Heq. subst rest2.
    by destruct H2 as [Hq _].
  - rewrite !join_quoted_cons, !quoted_text_unfold in Heq.
    injection Heq as Heq.
    destruct (esc_prefix_free _ _ _ _ (record_tail_no_quote texts1 rest1 H1)
                (record_tail_no_quote texts2 rest2 H2) Heq) as [-> Hrest].
    destruct texts1 as [|y1 texts1]; destruct texts2 as [|y2 texts2].
    + cbn in Hrest. by subst.
    + exfalso. rewrite record_tail_cons in Hrest. cbn [record_tail] in Hrest.
      subst rest1. by destruct H1 as [_ Hc].
    + exfalso. rewrite record_tail_cons in Hrest. cbn [record_tail] in Hrest.
      subst rest2. by destruct H2 as [_ Hc].
    + rewrite !record_tail_cons in Hrest.
      assert (Str.join delimiter (quoted_text <$> y1 :: texts1) +:+ rest1
              = Str.join delimiter (quoted_text <$> y2 :: texts2) +:+ rest2)
        as Hrest' by congruence.
      destruct (IH _ _ _ H1 H2 Hrest') as [Hl ->]. by rewrite Hl.
Qed.

Lemma append_not_empty (a b : string) (c : ascii) : a +:+ String c b ≠ EmptyString.
Proof. destruct a; [rewrite append_empty_l | rewrite append_cons]; discriminate. Qed.

Lemma line_of_prefix_free (texts1 texts2 : list string) (rest1 rest2 : string) :
  line_of texts1 +:+ rest1 = line_of texts2 +:+ rest2 →
  texts1 = texts2 ∧ rest1 = rest2.
Proof.
  unfold line_of. rewrite !append_assoc.
  change record_delimiter with (String Str.newline EmptyString).
  rewrite !append_cons, !append_empty_l. intros Heq.
  apply fields_prefix_free in Heq as [-> Hrest]; [| by split | by split].
  split; [done | congruence].
Qed.

Lemma lines_of_cons (texts : list string) (table : list (list string)) :
  lines_of (texts :: table) = line_of texts +:+ lines_of table.
Proof. unfold lines_of. by rewrite fmap_cons, join_empty_cons. Qed.

Lemma lines_of_injective (table1 : list (list string)) :
  ∀ table2, lines_of table1 = lines_of table2 → table1 = table2.
Proof.
  induction table1 as [|texts1 table1 IH]; intros [|texts2 table2] Heq.
  - done.
  - exfalso. rewrite lines_of_cons in Heq. unfold line_of in Heq.
    change record_delimiter with (String Str.newline EmptyString) in Heq.
    rewrite append_assoc, append_cons in Heq. symmetry in Heq.
    by apply append_not_empty in Heq.
  - exfalso. rewrite lines_of_cons in Heq. unfold line_of in Heq.
    change record_delimiter with (String Str.newline EmptyString) in Heq.
    rewrite append_assoc, append_cons in Heq.
    by apply append_not_empty in Heq.
  - rewrite !lines_of_cons in Heq.
    apply line_of_prefix_free in Heq as [-> Hrest]. by rewrite (IH _ Hrest).
Qed.

Context (walk : Walk).

Lemma headers_line (columns : list string) :
  headers handler_options columns = line_of columns.
Proof.
  unfold headers, line_of. cbn [header handler_options]. do 2 f_equal.
  apply list_fmap_ext. intros i column _. apply write_text_quoted.
Qed.

Lemma record_line_texts (columns : list string) (row : Row) :
  record_line walk handler_options columns row
  = line_of <$> cell_texts walk columns row.
Proof.
  unfold record_line. rewrite stringify_record_texts.
  by destruct (cell_texts walk columns row).
Qed.

(** The data lines are the lines of the table under its header. *)
Lemma data_lines_table (contents : list Row) :
  data_lines walk handler_options contents
  = (fun table => line_of <$> tail table) <$> table_of walk contents.
Proof.
  destruct contents as [|first rest]; [done |].
  cbn [data_lines table_of].
  rewrite (mapM_ext _ (fun row => line_of <$> cell_texts walk (keys first) row))
    by (intros row; apply record_line_texts).
  rewrite mapM_fmap_option.
  by destruct (mapM (cell_texts walk (keys first)) (first :: rest)).
Qed.

(** What is written, when all of it can be, is the lines of the table of
    texts. *)
Lemma run_is_lines (contents : list Row) (table : list (list string)) :
  table_of walk contents = Some table →
  run walk handler_options contents = Ended (lines_of table).
Proof.
  intros Htable.
  pose proof (data_lines_table contents) as Hlines. rewrite Htable in Hlines.
  cbn [fmap option_fmap option_map] in Hlines.
  rewrite (run_ended walk _ _ _ Hlines).
  destruct contents as [|first rest].
  - by injection Htable as <-.
  - cbn [table_of] in Htable. cbn [header_line].
    destruct (mapM (cell_texts walk (keys first)) (first :: rest)) as [cells|];
      [| done].
    injection Htable as <-. cbn [tail].
    by rewrite lines_of_cons, headers_line.
Qed.

Lemma run_ended_table (contents : list Row) (data : string) :
  run walk handler_options contents = Ended data →
  ∃ table, table_of walk contents = Some table ∧ data = lines_of table.
Proof.
  intros Hrun. destruct (table_of walk contents) as [table|] eqn:Htable.
  - exists table. split; [done |].
    rewrite (run_is_lines _ _ Htable) in Hrun. congruence.
  - pose proof (data_lines_table contents) as Hlines. rewrite Htable in Hlines.
    destruct (run_stopped walk _ _ Hlines) as [other Hstopped]. congruence.
Qed.

Lemma join_empty_app (l1 l2 : list string) :
  Str.join EmptyString (l1 ++ l2)
  = Str.join EmptyString l1 +:+ Str.join EmptyString l2.
Proof.
  induction l1 as [|x l1 IH]; [done |].
  cbn [app]. by rewrite !join_empty_cons, IH, append_assoc.
Qed.

End Lossless.

(** X1: under the handlers' options two values are written as the same field
    exactly when they have the same text: doubling the quotes loses nothing
    of a text, and nothing but the text of a value reaches the file. *)
Theorem field_keeps_text (field1 field2 : Value) :
  Csv.stringify_field handler_options field1
  = Csv.stringify_field handler_options field2
  ↔ field_text field1 = field_text field2.
Proof.
  rewrite !stringify_field_quoted. split; [| by intros ->].
  destruct (field_text field1) as [text1|], (field_text field2) as [text2|];
    try done.
  cbn [fmap option_fmap option_map]. intros Heq. f_equal.
  assert (quoted_text text1 = quoted_text text2) as Hquoted by congruence.
  pose proof (quoted_text_unfold text1 EmptyString) as H1.
  pose proof (quoted_text_unfold text2 EmptyString) as H2.
  rewrite append_empty_r in H1, H2.
  rewrite Hquoted, H2 in H1. injection H1 as H1. symmetry in H1.
  by apply esc_prefix_free in H1 as [-> _].
Qed.

(** X2: two row sets that can be written give the same file exactly when
    they have the same table of texts: the keys of the first row, and for
    every row the texts of its cells under those keys, each cell read as the
    stringifier reads it.  So the file gives back the header, the number of
    rows and every cell text, and holds nothing else of the rows. *)
Theorem file_keeps_table (walk : Walk) (contents1 contents2 : list Row)
    (data1 data2 : string) :
  Csv.run walk handler_options contents1 = Csv.Ended data1 →
  Csv.run walk handler_options contents2 = Csv.Ended data2 →
  data1 = data2 ↔ table_of walk contents1 = table_of walk contents2.
Proof.
  intros Hrun1 Hrun2.
  destruct (run_ended_table walk _ _ Hrun1) as (table1 & Htable1 & ->).
  destruct (run_ended_table walk _ _ Hrun2) as (table2 & Htable2 & ->).
  rewrite Htable1, Htable2. split.
  - intros Heq. f_equal. by apply lines_of_injective.
  - by intros [= ->].
Qed.

Lemma file_keeps_table_witness :
  table_of no_walk [[("note", VNull)]]
  = table_of no_walk [[("note", VString EmptyString)]].
Proof.
  exact (proj1 (file_keeps_table no_walk [[("note", VNull)]]
                  [[("note", VString EmptyString)]] _ _ eq_refl eq_refl) eq_refl).
Defined.

(** X3: for two row sets that can be written and whose first rows have the
    same keys, under the handlers' options, the file of the two sets one
    after the other is the file of the first followed by the data lines of
    the second, that is by the file of the second without its header
    line. *)
Theorem parts_concatenate (walk : Walk) (first1 first2 : Row)
    (rest1 rest2 : list Row) (data1 data2 : string) :
  keys first1 = keys first2 →
  Csv.run walk handler_options (first1 :: rest1) = Csv.Ended data1 →
  Csv.run walk handler_options (first2 :: rest2) = Csv.Ended data2 →
  ∃ lines,
    Csv.data_lines walk handler_options (first2 :: rest2) = Some lines
    ∧ Csv.run walk handler_options ((first1 :: rest1) ++ first2 :: rest2)
      = Csv.Ended (data1 +:+ Str.join EmptyString lines)
    ∧ data2
      = Csv.header_line handler_options (first1 :: rest1)
        +:+ Str.join EmptyString lines.
Proof.
  intros Hkeys Hrun1 Hrun2.
  destruct (run_ended_inv walk _ _ _ Hrun1) as (lines1 & Hlines1 & ->).
  destruct (run_ended_inv walk _ _ _ Hrun2) as (lines2 & Hlines2 & ->).
  exists lines2. split; [done |]. split.
  - assert (Csv.data_lines walk handler_options ((first1 :: rest1) ++ first2 :: rest2)
            = Some (lines1 ++ lines2)) as Hlines.
    { cbn [app Csv.data_lines] in *. rewrite <- Hkeys in Hlines2.
      apply mapM_Some. apply mapM_Some in Hlines1, Hlines2.
      change (first1 :: rest1 ++ first2 :: rest2)
        with ((first1 :: rest1) ++ first2 :: rest2).
      by apply Forall2_app. }
    rewrite (run_ended walk _ _ _ Hlines).
    cbn [app Csv.header_line]. by rewrite join_empty_app, append_assoc.
  - cbn [Csv.header_line]. by rewrite Hkeys.
Qed.

Lemma parts_concatenate_witness :
  ∃ data lines,
    Csv.run no_walk handler_options part_one = Csv.Ended data
    ∧ Csv.data_lines no_walk handler_options part_two = Some lines
    ∧ Csv.run no_walk handler_options (part_one ++ part_two)
      = Csv.Ended (data +:+ Str.join EmptyString lines).
Proof.
  destruct (parts_concatenate no_walk
              [("id", VNumber "1"); ("title", VString "a")]
              [("id", VNumber "3"); ("title", VString "c")]
              [[("id", VNumber "2"); ("title", VNull)]] [] _ _
              eq_refl eq_refl eq_refl) as (lines & Hlines & Hrun & _).
  eexists _, lines. split; [reflexivity |]. split; [exact Hlines | exact Hrun].
Defined.

(** ** The tools and what they leave behind *)

Section Tools.

Import PostgreSQL.

Lemma outcome_cases {T} (p : Pool T) text values :
  (∃ rows, outcome p text values = Resolves rows
           ∧ queryAsync text values p
             = (Fulfilled {| error := None; message := Text "success";
                             data := default [] rows |}, ran p text values))
  ∨ (∃ err, outcome p text values = Rejects err
            ∧ queryAsync text values p
              = (Fulfilled {| error := Some true; message := Thrown err; data := [] |},
                 ran p text values)).
Proof.
  destruct (outcome p text values) as [rows|err] eqn:Hout.
  - left. exists rows. split; [done | by apply queryAsync_resolves].
  - right. exists err. split; [done | by apply queryAsync_rejects].
Qed.

Lemma length_eqb_zero {A} (l : list A) :
  Nat.eqb (List.length l) 0 = true ↔ l = [].
Proof. destruct l; cbn; [done | split; discriminate]. Qed.

End Tools.

(** Opens a tool of the shape "run one statement, then answer" on the two
    things the statement can do. *)
Ltac run_tool p text values :=
  destruct (outcome_cases p text values) as [(rows & Hout & Hrun)|(err & Hout & Hrun)];
  rewrite !(bind_fulfilled _ _ _ _ _ Hrun), ?Hout;
  cbn [PostgreSQL.failed PostgreSQL.error PostgreSQL.message PostgreSQL.data
       PostgreSQL.show ret fst snd].

(** X4: each tool of the postgres-query server fulfils whatever the database
    does, after executing exactly one statement: a fixed text for ping,
    list_schemas, describe_table and describe_tables (the arguments go into
    the values only), one of two fixed texts for list_tables, the caller's
    text for query.  When the statement fails the answer has the error flag,
    no structured content and the failure's message after the tool's prefix;
    otherwise it has no error flag. *)
Theorem tools_surface_failures (T : Type) (p : PostgreSQL.Pool T)
    (schemas : PostgreSQL.Pool Postgres.SchemaRow)
    (tables : PostgreSQL.Pool PostgresQuery.TableRow.t)
    (columns : PostgreSQL.Pool PostgresQuery.ColumnRow.t)
    (catalog : PostgreSQL.Pool PostgresQuery.CatalogRow.t)
    (store : PostgreSQL.Pool Row)
    (schema : option string) (table parameterizedQuery : string)
    (values : list Value) :
  surfaces "Connection failed: " "SELECT 1" None p (PostgresQuery.pingHandlerAsync p)
  ∧ surfaces "Error listing schemas: " Postgres.listSchemas_query None schemas
      (PostgresQuery.listSchemasHandlerAsync schemas)
  ∧ surfaces "Error listing tables: "
      (PostgresQuery.listTables_query (schema_of schema))
      (Some (PostgresQuery.listTables_values (schema_of schema))) tables
      (PostgresQuery.listTablesHandlerAsync schema tables)
  ∧ surfaces "Error describing table: " PostgresQuery.describeTable_query
      (Some [VString table; VString (schema_of schema)]) columns
      (PostgresQuery.describeTableHandlerAsync table schema columns)
  ∧ surfaces "Error describing tables: " PostgresQuery.describeTables_query
      (Some [VString (schema_of schema)]) catalog
      (PostgresQuery.describeTablesHandlerAsync schema catalog)
  ∧ surfaces "Error querying database: " parameterizedQuery (Some values) store
      (PostgresQuery.queryHandlerAsync parameterizedQuery values schema store).
Proof.
  unfold surfaces. repeat split.
  - unfold PostgresQuery.pingHandlerAsync. by run_tool p "SELECT 1" (@None (list Value)).
  - unfold PostgresQuery.pingHandlerAsync.
    run_tool p "SELECT 1" (@None (list Value)); by eexists.
  - unfold PostgresQuery.listSchemasHandlerAsync.
    by run_tool schemas Postgres.listSchemas_query (@None (list Value)).
  - unfold PostgresQuery.listSchemasHandlerAsync.
    run_tool schemas Postgres.listSchemas_query (@None (list Value)); by eexists.
  - unfold PostgresQuery.listTablesHandlerAsync. cbv zeta. fold (schema_of schema).
    by run_tool tables (PostgresQuery.listTables_query (schema_of schema))
         (Some (PostgresQuery.listTables_values (schema_of schema))).
  - unfold PostgresQuery.listTablesHandlerAsync. cbv zeta. fold (schema_of schema).
    run_tool tables (PostgresQuery.listTables_query (schema_of schema))
      (Some (PostgresQuery.listTables_values (schema_of schema))); by eexists.
  - unfold PostgresQuery.describeTableHandlerAsync. cbv zeta. fold (schema_of schema).
    by run_tool columns PostgresQuery.describeTable_query
         (Some [VString table; VString (schema_of schema)]).
  - unfold PostgresQuery.describeTableHandlerAsync. cbv zeta. fold (schema_of schema).
    run_tool columns PostgresQuery.describeTable_query
      (Some [VString table; VString (schema_of schema)]); by eexists.
  - unfold PostgresQuery.describeTablesHandlerAsync. cbv zeta. fold (schema_of schema).
    by run_tool catalog PostgresQuery.describeTables_query
         (Some [VString (schema_of schema)]).
  - unfold PostgresQuery.describeTablesHandlerAsync. cbv zeta. fold (schema_of schema).
    run_tool catalog PostgresQuery.describeTables_query
      (Some [VString (schema_of schema)]); by eexists.
  - unfold PostgresQuery.queryHandlerAsync. cbv zeta.
    run_tool store parameterizedQuery (Some values); [| done].
    by destruct (Nat.eqb _ 0).
  - unfold PostgresQuery.queryHandlerAsync. cbv zeta.
    run_tool store parameterizedQuery (Some values); [| by eexists].
    destruct (Nat.eqb _ 0); by eexists.
Qed.

(** X5: the query and run-query tools report the rows exactly as the
    database returned them, in the same order, with rowCount their number;
    they give no structured content only when the statement failed. *)
Theorem query_reports_rows_as_returned (store : PostgreSQL.Pool Row)
    (parameterizedQuery : string) (values : list Value) (schema : option string) :
  match outcome store parameterizedQuery (Some values) with
  | PostgreSQL.Resolves rows =>
      structuredContent_of
        (fst (PostgresQuery.queryHandlerAsync parameterizedQuery values schema store))
      = Some {| PostgresQuery.rowCount := List.length (default [] rows);
                PostgresQuery.rows := default [] rows |}
      ∧ structuredContent_of
          (fst (Postgres.runQueryHandlerAsync parameterizedQuery values store))
        = Some {| Postgres.rowCount := List.length (default [] rows);
                  Postgres.rows := default [] rows |}
  | PostgreSQL.Rejects _ =>
      structuredContent_of
        (fst (PostgresQuery.queryHandlerAsync parameterizedQuery values schema store))
      = None
      ∧ structuredContent_of
          (fst (Postgres.runQueryHandlerAsync parameterizedQuery values store))
        = None
  end.
Proof.
  unfold PostgresQuery.queryHandlerAsync, Postgres.runQueryHandlerAsync. cbv zeta.
  run_tool store parameterizedQuery (Some values); [| done].
  destruct (Nat.eqb (List.length (default [] rows)) 0) eqn:Hzero; [| done].
  apply length_eqb_zero in Hzero. by rewrite Hzero.
Qed.

(** X6: when its query returns at least one row, saveQueryResult does to the
    file system, and answers, what create_fromjson_tofs does and answers when
    handed the same file name and path and the returned rows as contents:
    the same file, the same text, the same path and row count, the same error
    when the write stream fails; and it is not answered when
    create_fromjson_tofs is not. *)
Theorem save_is_query_then_create (walk : Walk) (store : PostgreSQL.Pool Row)
    (io : Io) (input : Postgres.saveQueryResultInput) (rows : option (list Row)) :
  let created :=
    CsvGenerator.createFromJsonToFSHandlerAsync walk
      {| CsvGenerator.filename := Postgres.filename input;
         CsvGenerator.path := Postgres.path input;
         CsvGenerator.contents := default [] rows |} io in
  outcome store (Postgres.parameterizedQuery input) (Some (Postgres.values input))
    = PostgreSQL.Resolves rows →
  default [] rows ≠ [] →
  Postgres.saveQueryResultHandlerAsync walk input (store, io)
  = (saved_completion (fst created),
     (ran store (Postgres.parameterizedQuery input) (Some (Postgres.values input)),
      snd created)).
Proof. exact (save_as_create walk input store io rows). Qed.

Lemma save_is_query_then_create_witness :
  snd (snd (Postgres.saveQueryResultHandlerAsync no_walk
              {| Postgres.parameterizedQuery := "SELECT id, title FROM Series";
                 Postgres.values := [];
                 Postgres.filename := "series.csv";
                 Postgres.path := "/srv/out" |} (rows_pool, empty_io)))
  = snd (CsvGenerator.createFromJsonToFSHandlerAsync no_walk
           {| CsvGenerator.filename := "series.csv";
              CsvGenerator.path := "/srv/out";
              CsvGenerator.contents := part_one |} empty_io).
Proof.
  pose proof (save_is_query_then_create no_walk rows_pool empty_io
                {| Postgres.parameterizedQuery := "SELECT id, title FROM Series";
                   Postgres.values := [];
                   Postgres.filename := "series.csv";
                   Postgres.path := "/srv/out" |} (Some part_one) eq_refl) as H.
  cbv zeta in H. rewrite H; [done | discriminate].
Defined.

(** X7: whatever the database, the rows and the write stream do,
    saveQueryResult and create_fromjson_tofs change no file but the one at
    join(path, filename) and never change which paths can be written;
    saveQueryResult leaves the file system wholly as it was when its query
    fails or returns no row, and both do when the write stream cannot be
    opened. *)
Theorem tools_touch_one_path (walk : Walk) (store : PostgreSQL.Pool Row) (io : Io)
    (save : Postgres.saveQueryResultInput)
    (create : CsvGenerator.createFromJsonToFSInput) :
  let saved :=
    disk (snd (snd (Postgres.saveQueryResultHandlerAsync walk save (store, io)))) in
  let created :=
    disk (snd (CsvGenerator.createFromJsonToFSHandlerAsync walk create io)) in
  denied saved = denied (disk io)
  ∧ limits saved = limits (disk io)
  ∧ (∀ other, other ≠ Path.join [Postgres.path save; Postgres.filename save] →
       files saved !! other = files (disk io) !! other)
  ∧ (returned_rows (outcome store (Postgres.parameterizedQuery save)
                      (Some (Postgres.values save))) = []
     ∨ is_Some (denied (disk io)
                !! Path.join [Postgres.path save; Postgres.filename save]) →
     saved = disk io)
  ∧ denied created = denied (disk io)
  ∧ limits created = limits (disk io)
  ∧ (∀ other,
       other ≠ Path.join [CsvGenerator.path create; CsvGenerator.filename create] →
       files created !! other = files (disk io) !! other)
  ∧ (is_Some (denied (disk io)
              !! Path.join [CsvGenerator.path create; CsvGenerator.filename create]) →
     created = disk io).
Proof.
  cbv zeta.
  assert (snd (snd (Postgres.saveQueryResultHandlerAsync walk save (store, io))) = io
          ∨ (returned_rows (outcome store (Postgres.parameterizedQuery save)
                              (Some (Postgres.values save))) ≠ []
             ∧ ∃ rows,
                 snd (snd (Postgres.saveQueryResultHandlerAsync walk save (store, io)))
                 = snd (CsvGenerator.createFromJsonToFSHandlerAsync walk
                          {| CsvGenerator.filename := Postgres.filename save;
                             CsvGenerator.path := Postgres.path save;
                             CsvGenerator.contents := rows |} io))) as Hsaved.
  { destruct (outcome store (Postgres.parameterizedQuery save)
                (Some (Postgres.values save))) as [rows|err] eqn:Hout.
    - destruct (decide (default [] rows = [])) as [Hnone|Hsome].
      + left. by rewrite (save_no_rows walk save store io rows Hout Hnone).
      + right. split; [done |]. exists (default [] rows).
        by rewrite (save_as_create walk save store io rows Hout Hsome).
    - left. by rewrite (save_fails walk save store io err Hout). }
  pose proof (create_one_stream walk create io) as Hcreate. cbv zeta in Hcreate.
  destruct Hcreate as (_ & Hdenied & Hlimits & Hothers & Hclosed).
  split_and!; try done.
  - destruct Hsaved as [->|(_ & rows & ->)]; [done |].
    apply (create_one_stream walk
             {| CsvGenerator.filename := Postgres.filename save;
                CsvGenerator.path := Postgres.path save;
                CsvGenerator.contents := rows |} io).
  - destruct Hsaved as [->|(_ & rows & ->)]; [done |].
    apply (create_one_stream walk
             {| CsvGenerator.filename := Postgres.filename save;
                CsvGenerator.path := Postgres.path save;
                CsvGenerator.contents := rows |} io).
  - destruct Hsaved as [->|(_ & rows & ->)]; [done |].
    apply (create_one_stream walk
             {| CsvGenerator.filename := Postgres.filename save;
                CsvGenerator.path := Postgres.path save;
                CsvGenerator.contents := rows |} io).
  - destruct Hsaved as [->|(Hrows & rows & ->)]; [done |].
    intros [Hnone|Hopen]; [done |].
    by apply (create_one_stream walk
                {| CsvGenerator.filename := Postgres.filename save;
                   CsvGenerator.path := Postgres.path save;
                   CsvGenerator.contents := rows |} io).
Qed.

(** X8: a second create_fromjson_tofs call for the same joined path replaces
    the file of the first call entirely: the file system is as if the first
    call had not been made. *)
Theorem second_write_replaces (walk : Walk)
    (first second : CsvGenerator.createFromJsonToFSInput) (io : Io) :
  Path.join [CsvGenerator.path first; CsvGenerator.filename first]
    = Path.join [CsvGenerator.path second; CsvGenerator.filename second] →
  disk (snd (CsvGenerator.createFromJsonToFSHandlerAsync walk second
               (snd (CsvGenerator.createFromJsonToFSHandlerAsync walk first io))))
  = disk (snd (CsvGenerator.createFromJsonToFSHandlerAsync walk second io)).
Proof.
  intros Hsame.
  rewrite (create_disk walk second (snd _)), (create_disk walk second io).
  rewrite (create_disk walk first io), Hsame.
  destruct (denied (disk io)
            !! Path.join [CsvGenerator.path second; CsvGenerator.filename second])
    as [message|] eqn:Hopen.
  - by rewrite Hopen.
  - cbn [put denied limits]. rewrite Hopen. by rewrite put_put.
Qed.

Lemma second_write_replaces_witness :
  disk (snd (CsvGenerator.createFromJsonToFSHandlerAsync no_walk
               {| CsvGenerator.filename := "report.csv";
                  CsvGenerator.path := "/srv/out";
                  CsvGenerator.contents := part_two |}
               (snd (CsvGenerator.createFromJsonToFSHandlerAsync no_walk
                       {| CsvGenerator.filename := "out/report.csv";
                          CsvGenerator.path := "/srv";
                          CsvGenerator.contents := part_one |} empty_io))))
  = disk (snd (CsvGenerator.createFromJsonToFSHandlerAsync no_walk
                 {| CsvGenerator.filename := "report.csv";
                    CsvGenerator.path := "/srv/out";
                    CsvGenerator.contents := part_two |} empty_io)).
Proof.
  exact (second_write_replaces no_walk
           {| CsvGenerator.filename := "out/report.csv";
              CsvGenerator.path := "/srv";
              CsvGenerator.contents := part_one |}
           {| CsvGenerator.filename := "report.csv";
              CsvGenerator.path := "/srv/out";
              CsvGenerator.contents := part_two |} empty_io eq_refl).
Defined.

Lemma substitution_plain (matched before after template : string) :
  Str.mem JsString.dollar template = false →
  JsString.substitution matched before after template = template.
Proof.
  induction template as [|c template IH]; [done |].
  cbn [JsString.substitution Str.mem].
  destruct (Ascii.eqb c JsString.dollar) eqn:Hc.
  - apply Ascii.eqb_eq in Hc. subst c. by rewrite Ascii.eqb_refl.
  - destruct (Ascii.eqb JsString.dollar c); [done |].
    intros Hmem. by rewrite IH.
Qed.

Example dollar_in_schema_name :
  Postgres.res_uri (Postgres.resource_of {| Postgres.schema_name := "a$&b" |})
  = "postgres://schemas/a{schema}b/tables".
Proof. reflexivity. Qed.

(** X9: listTableSchemaUris never fails.  When the catalog query fails it
    answers with no resource at all, as for a database without schemas; when
    the query succeeds it answers with one resource per schema row, in the
    order of the rows, and for a schema whose name holds no dollar sign the
    resource has the name taken as it is in its name, title, description and
    in its URI postgres://schemas/NAME/tables. *)
Theorem schema_resources (schemas : PostgreSQL.Pool Postgres.SchemaRow) :
  (∀ err,
     outcome schemas Postgres.listSchemas_query None = PostgreSQL.Rejects err →
     Postgres.listTableSchemaUrisAsync schemas
     = (Fulfilled [], ran schemas Postgres.listSchemas_query None))
  ∧ (∀ rows,
       outcome schemas Postgres.listSchemas_query None = PostgreSQL.Resolves rows →
       ∃ resources,
         Postgres.listTableSchemaUrisAsync schemas
         = (Fulfilled resources, ran schemas Postgres.listSchemas_query None)
         ∧ List.length resources = List.length (default [] rows)
         ∧ ∀ i value,
             default [] rows !! i = Some value →
             Str.mem JsString.dollar (Postgres.schema_name value) = false →
             resources !! i = Some (plain_resource value)).
Proof.
  split.
  - intros err Hout. unfold Postgres.listTableSchemaUrisAsync.
    by rewrite (bind_fulfilled _ _ _ _ _ (queryAsync_rejects _ _ _ _ Hout)).
  - intros rows Hout. eexists. split.
    { unfold Postgres.listTableSchemaUrisAsync.
      by rewrite (bind_fulfilled _ _ _ _ _ (queryAsync_resolves _ _ _ _ Hout)). }
    cbn [PostgreSQL.data]. split; [by rewrite length_fmap |].
    intros i value Hvalue Hplain. rewrite list_lookup_fmap, Hvalue. cbn [fmap option_fmap option_map].
    f_equal. unfold Postgres.resource_of, plain_resource. f_equal.
    unfold JsString.replace.
    change (JsString.split_first "{schema}" Postgres.resTableSchemaUri)
      with (Some ("postgres://schemas/", "/tables")).
    cbv beta iota. by rewrite substitution_plain.
Qed.

Lemma schema_resources_witness :
  ∃ resources,
    fst (Postgres.listTableSchemaUrisAsync schema_pool) = Fulfilled resources
    ∧ resources !! 1
      = Some (plain_resource {| Postgres.schema_name := "archive" |}).
Proof.
  destruct (proj2 (schema_resources schema_pool) _ eq_refl)
    as (resources & Hrun & _ & Hplain).
  exists resources. split; [by rewrite Hrun |].
  by apply (Hplain 1 {| Postgres.schema_name := "archive" |}).
Defined.

(** X10: every statement the introspection tools and the resource listing
    execute has exactly as many placeholders as values bound to it, whatever
    the arguments: none for ping and the schema listings, two for
    describe_table, one for describe_tables, and for list_tables one with its
    schema, or none and no value when the schema name is empty. *)
Theorem statements_bind_their_values (T : Type) (p : PostgreSQL.Pool T)
    (schemas : PostgreSQL.Pool Postgres.SchemaRow)
    (tables : PostgreSQL.Pool PostgresQuery.TableRow.t)
    (columns : PostgreSQL.Pool PostgresQuery.ColumnRow.t)
    (catalog : PostgreSQL.Pool PostgresQuery.CatalogRow.t)
    (schema : option string) (table : string) :
  binds_all p (PostgresQuery.pingHandlerAsync p)
  ∧ binds_all schemas (PostgresQuery.listSchemasHandlerAsync schemas)
  ∧ binds_all schemas (Postgres.listTableSchemaUrisAsync schemas)
  ∧ binds_all tables (PostgresQuery.listTablesHandlerAsync schema tables)
  ∧ binds_all columns (PostgresQuery.describeTableHandlerAsync table schema columns)
  ∧ binds_all catalog (PostgresQuery.describeTablesHandlerAsync schema catalog)
  ∧ (schema = Some EmptyString →
     snd (PostgresQuery.listTablesHandlerAsync schema tables)
     = ran tables (PostgresQuery.listTables_query EmptyString) (Some [])).
Proof.
  unfold binds_all. split_and!.
  - eexists _, _. split; [| shelve].
    unfold PostgresQuery.pingHandlerAsync.
    by run_tool p "SELECT 1" (@None (list Value)).
    Unshelve. reflexivity.
  - eexists _, _. split; [| shelve].
    unfold PostgresQuery.listSchemasHandlerAsync.
    by run_tool schemas Postgres.listSchemas_query (@None (list Value)).
    Unshelve. reflexivity.
  - eexists _, _. split; [| shelve].
    unfold Postgres.listTableSchemaUrisAsync.
    by run_tool schemas Postgres.listSchemas_query (@None (list Value)).
    Unshelve. reflexivity.
  - eexists _, _. split; [| shelve].
    unfold PostgresQuery.listTablesHandlerAsync. cbv zeta.
    by run_tool tables
         (PostgresQuery.listTables_query
            (default PostgresQuery.defaults.listTables_schema schema))
         (Some (PostgresQuery.listTables_values
                  (default PostgresQuery.defaults.listTables_schema schema))).
    Unshelve.
    by destruct (default PostgresQuery.defaults.listTables_schema schema).
  - eexists _, _. split; [| shelve].
    unfold PostgresQuery.describeTableHandlerAsync. cbv zeta.
    by run_tool columns PostgresQuery.describeTable_query
         (Some [VString table;
                VString (default PostgresQuery.defaults.describeTable_schema schema)]).
    Unshelve. reflexivity.
  - eexists _, _. split; [| shelve].
    unfold PostgresQuery.describeTablesHandlerAsync. cbv zeta.
    by run_tool catalog PostgresQuery.describeTables_query
         (Some [VString (default PostgresQuery.defaults.describeTables_schema schema)]).
    Unshelve. reflexivity.
  - intros ->. unfold PostgresQuery.listTablesHandlerAsync. cbv zeta.
    cbn [default].
    by run_tool tables (PostgresQuery.listTables_query EmptyString)
         (Some (PostgresQuery.listTables_values EmptyString)).
Qed.

Lemma statements_bind_their_values_witness :
  snd (PostgresQuery.listTablesHandlerAsync (Some EmptyString)
         {| PostgreSQL.answer := fun _ _ _ => PostgreSQL.Resolves (Some []);
            PostgreSQL.executed := [] |})
  = ran {| PostgreSQL.answer := fun _ _ _ => PostgreSQL.Resolves (Some []);
           PostgreSQL.executed := [] |}
        (PostgresQuery.listTables_query EmptyString) (Some []).
Proof.
  pose proof (statements_bind_their_values Row empty_pool schema_pool
                {| PostgreSQL.answer := fun _ _ _ => PostgreSQL.Resolves (Some []);
                   PostgreSQL.executed := [] |}
                unknown_table_pool catalog_pool (Some EmptyString) "Series") as H.
  destruct H as (_ & _ & _ & _ & _ & _ & Hempty).
  exact (Hempty eq_refl).
Defined.

(** ** More on the grouping of catalog rows *)

Section Blocks.

Import PostgresQuery.

Lemma all_columns_cons (row : Table.t) (tables : list Table.t) :
  all_columns (row :: tables) = Table.columns row ++ all_columns tables.
Proof. reflexivity. Qed.

Lemma all_columns_step (tables : list Table.t) (value : CatalogRow.t) :
  all_columns (group_step tables value) ≡ₚ all_columns tables ++ [column_of value].
Proof.
  induction tables as [|row tables IH].
  - by rewrite group_step_nil.
  - rewrite group_step_cons. destruct (same_table value row).
    + rewrite !all_columns_cons. cbn [push_column Table.columns].
      rewrite <- !app_assoc. apply Permutation_app_head, Permutation_app_comm.
    + rewrite !all_columns_cons, IH. by rewrite app_assoc.
Qed.

Lemma all_columns_fold (data : list CatalogRow.t) :
  ∀ acc : list Table.t,
    all_columns (fold_left group_step data acc)
    ≡ₚ all_columns acc ++ (column_of <$> data).
Proof.
  induction data as [|value data IH]; intros acc.
  - cbn. by rewrite app_nil_r.
  - cbn [fold_left]. rewrite IH, all_columns_step, fmap_cons.
    by rewrite <- app_assoc.
Qed.





Lemma first_seen_fmap_length {A B} `{EqDecision A, EqDecision B} (f : A → B)
    (l : list A) :
  (List.length (first_seen (f <$> l)) ≤ List.length (first_seen l))%nat.
Proof.
  rewrite <- (length_fmap f (first_seen l)).
  apply submseteq_length, NoDup_submseteq; [apply NoDup_first_seen |].
  intros y. rewrite elem_of_first_seen, !list_elem_of_fmap.
  intros (x & -> & Hx). exists x. by rewrite elem_of_first_seen.
Qed.

Lemma size_first_seen `{Countable A} (l : list A) :
  size (list_to_set l : gset A) = List.length (first_seen l).
Proof.
  rewrite <- (size_list_to_set (C:=gset A) (first_seen l)) by apply NoDup_first_seen.
  f_equal. apply set_eq. intros x. by rewrite !elem_of_list_to_set, elem_of_first_seen.
Qed.

End Blocks.

(** X11: describe_tables loses and invents no column: the columns of all the
    tables it returns, taken together, are the columns of the catalog rows, up
    to order, so there are as many of them as catalog rows. *)
Theorem grouping_keeps_every_column (data : list PostgresQuery.CatalogRow.t) :
  all_columns (PostgresQuery.group_tables data) ≡ₚ PostgresQuery.column_of <$> data
  ∧ List.length (all_columns (PostgresQuery.group_tables data)) = List.length data.
Proof.
  assert (all_columns (PostgresQuery.group_tables data)
          ≡ₚ PostgresQuery.column_of <$> data) as Hperm.
  { unfold PostgresQuery.group_tables. by rewrite all_columns_fold. }
  split; [done |]. by rewrite Hperm, length_fmap.
Qed.



(** X13: the number of tables describe_tables announces in its message, the
    number of distinct table names among the catalog rows, is never more than
    the number of tables it returns, and is that number when all catalog rows
    are of one schema. *)
Theorem announced_table_count (data : list PostgresQuery.CatalogRow.t)
    (schema : string) :
  (PostgresQuery.tableCount data ≤ List.length (PostgresQuery.group_tables data))%nat
  ∧ (Forall (fun value => PostgresQuery.CatalogRow.table_schema value = schema) data →
     PostgresQuery.tableCount data = List.length (PostgresQuery.group_tables data)).
Proof.
  unfold PostgresQuery.tableCount. rewrite size_first_seen.
  rewrite <- (length_fmap table_key (PostgresQuery.group_tables data)), group_tables_keys.
  assert (PostgresQuery.CatalogRow.table_name <$> data = snd <$> (row_key <$> data))
    as Hnames.
  { rewrite <- list_fmap_compose. by apply list_fmap_ext. }
  split.
  - rewrite Hnames. apply first_seen_fmap_length.
  - intros Hschema. apply Nat.le_antisymm.
    + rewrite Hnames. apply first_seen_fmap_length.
    + assert (row_key <$> data
              = pair schema <$> (PostgresQuery.CatalogRow.table_name <$> data)) as ->.
      { rewrite <- list_fmap_compose. apply list_fmap_ext.
        intros i value Hvalue. rewrite Forall_lookup in Hschema.
        unfold row_key. cbn. by rewrite (Hschema i value Hvalue). }
      apply first_seen_fmap_length.
Qed.

Lemma announced_table_count_witness :
  PostgresQuery.tableCount sample_catalog
  = List.length (PostgresQuery.group_tables sample_catalog).
Proof.
  assert (Forall (fun value => PostgresQuery.CatalogRow.table_schema value = "public")
            sample_catalog) as Hschema by (by repeat constructor).
  exact (proj2 (announced_table_count sample_catalog "public") Hschema).
Defined.

(** ** Where a plain file name lands *)

Section PlainName.

Lemma split_go_app (c : ascii) (s t : string) :
  ∀ cur, Str.split_go c cur (s +:+ String c t)
         = Str.split_go c cur s ++ Str.split_go c EmptyString t.
Proof.
  induction s as [|d s IH]; intros cur.
  - rewrite append_empty_l. cbn [Str.split_go]. by rewrite Ascii.eqb_refl.
  - rewrite append_cons. cbn [Str.split_go].
    destruct (Ascii.eqb c d); by rewrite IH.
Qed.

Lemma split_go_plain (c : ascii) (t : string) :
  ∀ cur, Str.mem c t = false → Str.split_go c cur t = [cur +:+ t].
Proof.
  induction t as [|d t IH]; intros cur.
  - intros _. cbn. by rewrite append_empty_r.
  - cbn [Str.mem Str.split_go]. destruct (Ascii.eqb c d); [done |].
    intros Hmem. rewrite (IH _ Hmem). unfold Str.of_char.
    by rewrite append_assoc, append_cons, append_empty_l.
Qed.

Lemma normalizeSegments_app (allowAboveRoot : bool) (segs1 segs2 : list string) :
  ∀ res,
    Path.normalizeSegments allowAboveRoot res (segs1 ++ segs2)
    = Path.normalizeSegments allowAboveRoot
        (rev (Path.normalizeSegments allowAboveRoot res segs1)) segs2.
Proof.
  induction segs1 as [|seg segs1 IH]; intros res.
  - cbn [app Path.normalizeSegments]. by rewrite rev_involutive.
  - cbn [app Path.normalizeSegments].
    destruct (Str.is_empty seg || String.eqb seg Path.dot); [apply IH |].
    destruct (String.eqb seg Path.dotdot); [| apply IH].
    destruct res as [|top res]; [destruct allowAboveRoot; apply IH |].
    destruct (String.eqb top Path.dotdot); apply IH.
Qed.

Lemma normalizeSegments_nonempty (allowAboveRoot : bool) (segs : list string) :
  ∀ res,
    Forall (fun seg => seg ≠ EmptyString) res →
    Forall (fun seg => seg ≠ EmptyString)
      (Path.normalizeSegments allowAboveRoot res segs).
Proof.
  induction segs as [|seg segs IH]; intros res Hres.
  - cbn. by apply Forall_rev.
  - cbn [Path.normalizeSegments].
    destruct (Str.is_empty seg || String.eqb seg Path.dot) eqn:Hskip; [by apply IH |].
    destruct (String.eqb seg Path.dotdot).
    + destruct res as [|top res].
      * destruct allowAboveRoot; apply IH; [by repeat constructor | done].
      * destruct (String.eqb top Path.dotdot); apply IH.
        -- by constructor.
        -- by apply Forall_cons in Hres as [_ Hres].
    + apply IH. constructor; [| done].
      intros ->. by cbn in Hskip.
Qed.

Lemma join_snoc (sep x : string) (l : list string) :
  l ≠ [] → Str.join sep (l ++ [x]) = Str.join sep l +:+ sep +:+ x.
Proof.
  induction l as [|y l IH]; [done |]. intros _.
  destruct l as [|z l]; [done |].
  change ((y :: z :: l) ++ [x]) with (y :: ((z :: l) ++ [x])).
  rewrite (join_cons sep y ((z :: l) ++ [x])). cbn [app].
  change (z :: (l ++ [x])) with ((z :: l) ++ [x]).
  rewrite IH by done. rewrite (join_cons sep y (z :: l)).
  by rewrite !append_assoc.
Qed.

Lemma join_not_empty (sep : string) (l : list string) :
  l ≠ [] → Forall (fun seg => seg ≠ EmptyString) l →
  Str.is_empty (Str.join sep l) = false.
Proof.
  destruct l as [|y l]; [done |]. intros _ Hl.
  apply Forall_cons in Hl as [Hy _]. rewrite join_cons.
  destruct y as [|c y]; [done |]. by rewrite append_cons.
Qed.

Lemma first_char_app (a b : string) :
  a ≠ EmptyString → Str.first_char (a +:+ b) = Str.first_char a.
Proof. destruct a; [done |]. by rewrite append_cons. Qed.

Lemma last_char_app (a b : string) :
  b ≠ EmptyString → Str.last_char (a +:+ b) = Str.last_char b.
Proof.
  intros Hb. induction a as [|c a IH]; [done |].
  rewrite append_cons. cbn [Str.last_char]. rewrite IH.
  destruct (a +:+ b) eqn:Hab; [| done].
  destruct a; [by rewrite append_empty_l in Hab | by rewrite append_cons in Hab].
Qed.

Lemma last_char_mem (c : ascii) (s : string) :
  Str.last_char s = Some c → Str.mem c s = true.
Proof.
  induction s as [|d s IH]; [done |].
  cbn [Str.last_char Str.mem]. destruct s as [|e s].
  - intros [= ->]. by rewrite Ascii.eqb_refl.
  - intros Hlast. rewrite (IH Hlast). by destruct (Ascii.eqb c d).
Qed.

Lemma is_empty_false (s : string) : s ≠ EmptyString → Str.is_empty s = false.
Proof. by destruct s. Qed.

End PlainName.

(** X14: for an absolute path and a file name that is one plain segment (not
    empty, no slash, neither one dot nor two), join(path, filename) is the
    normalized directory, with its slash at the end, followed by the file
    name: the file lands directly in the directory named. *)
Theorem plain_name_lands_in_directory (path name : string) :
  Str.first_char path = Some Str.slash →
  plain_name name →
  Path.join [path; name] = Path.normalize (path +:+ Path.sep) +:+ name.
Proof.
  intros Habs (Hslash & Hsome & Hdot & Hdotdot).
  assert (path ≠ EmptyString) as Hpath by (by destruct path).
  unfold Path.join. cbn [fold_left].
  rewrite (is_empty_false _ Hpath), (is_empty_false _ Hsome).
  unfold Path.normalize.
  assert (∀ tail, Str.is_empty (path +:+ tail) = false) as Hfull.
  { intros tail. destruct path; [done | by rewrite append_cons]. }
  rewrite !Hfull, !first_char_app, Habs by done.
  change (Path.is_slash (Some Str.slash)) with true. cbn [negb].
  unfold Path.sep, Str.of_char.
  change (String Str.slash EmptyString +:+ name) with (String Str.slash name).
  rewrite (last_char_app path (String Str.slash name)) by done.
  rewrite (last_char_app path (String Str.slash EmptyString)) by done.
  cbn [Str.last_char]. destruct name as [|c name]; [done |].
  assert (Path.is_slash (Str.last_char (String c name)) = false) as ->.
  { destruct (Str.last_char (String c name)) as [d|] eqn:Hlast; [| done].
    cbn [Path.is_slash]. destruct (Ascii.eqb d Str.slash) eqn:Hd; [| done].
    apply Ascii.eqb_eq in Hd. subst d. apply last_char_mem in Hlast. congruence. }
  change (Path.is_slash (Some Str.slash)) with true.
  unfold Str.split. rewrite !split_go_app.
  rewrite (split_go_plain _ _ _ Hslash), append_empty_l.
  change (Str.split_go Str.slash EmptyString EmptyString) with [EmptyString].
  rewrite !normalizeSegments_app.
  set (kept := Path.normalizeSegments false [] (Str.split_go Str.slash EmptyString path)).
  assert (Forall (fun seg => seg ≠ EmptyString) kept) as Hkept
    by (by apply normalizeSegments_nonempty).
  assert (Path.normalizeSegments false (rev kept) [EmptyString] = kept) as ->.
  { cbn. apply rev_involutive. }
  assert (Path.normalizeSegments false (rev kept) [String c name]
          = kept ++ [String c name]) as ->.
  { cbn [Path.normalizeSegments Str.is_empty orb].
    assert (String.eqb (String c name) Path.dot = false) as ->
      by (by apply String.eqb_neq).
    assert (String.eqb (String c name) Path.dotdot = false) as ->
      by (by apply String.eqb_neq).
    cbn [rev]. by rewrite rev_involutive. }
  clearbody kept. destruct kept as [|seg segs].
  - reflexivity.
  - rewrite join_snoc by done.
    assert (Str.is_empty (Str.join (String Str.slash EmptyString) (seg :: segs))
            = false) as Hdir by (by apply join_not_empty).
    rewrite Hdir.
    destruct (Str.join (String Str.slash EmptyString) (seg :: segs)) as [|d dir];
      [done |].
    rewrite !append_cons. cbn [Str.is_empty].
    by rewrite !append_empty_l, !append_cons, !append_assoc, !append_cons,
         !append_empty_l.
Qed.

Lemma plain_name_lands_in_directory_witness :
  Path.join ["/srv//out/../reports/"; "q1.csv"] = "/srv/reports/q1.csv".
Proof.
  assert (plain_name "q1.csv") as Hplain by (by repeat split).
  exact (plain_name_lands_in_directory "/srv//out/../reports/" "q1.csv" eq_refl Hplain).
Defined.

(** ** Keys the first row does not have *)

Section Columns.

Import Csv.

Context (walk : Walk).

(** The columns, once fixed, stay. *)
Lemma write_columns (st : Stringifier) (chunk : Row) (cols : list string) :
  columns st = Some cols →
  columns (write walk st chunk) = Some cols
  ∧ options (write walk st chunk) = options st.
Proof.
  intros Hcols. unfold write. destruct (stop st); [done |]. rewrite Hcols.
  by destruct (stringify_record walk (options st) cols chunk).
Qed.

Lemma fold_write_columns (rows : list Row) :
  ∀ (st : Stringifier) (cols : list string),
    columns st = Some cols →
    columns (fold_left (write walk) rows st) = Some cols
    ∧ options (fold_left (write walk) rows st) = options st.
Proof.
  induction rows as [|row rows IH]; intros st cols Hcols; [done |].
  cbn [fold_left].
  destruct (write_columns st row cols Hcols) as [Hcols' Hoptions].
  destruct (IH _ _ Hcols') as [Hfold Hfold']. split; [done | congruence].
Qed.

Lemma first_write_columns (o : Options) (first : Row) :
  columns (write walk (stringify o) first) = Some (keys first)
  ∧ options (write walk (stringify o) first) = o.
Proof.
  unfold write, stringify. cbn [stop columns options records].
  by destruct (stringify_record walk o (keys first) first).
Qed.

(** Two rows with the same record under the columns are written alike. *)
Lemma write_same_record (st : Stringifier) (cols : list string) (row1 row2 : Row) :
  columns st = Some cols →
  stringify_record walk (options st) cols row1
    = stringify_record walk (options st) cols row2 →
  write walk st row1 = write walk st row2.
Proof. intros Hcols Hsame. unfold write. by rewrite Hcols, Hsame. Qed.

End Columns.

(** X15: when the keys of the first row are plain names, none of them
    holding a dot or a bracket pair, a value under a key that the first row
    does not have never reaches the file: under the handlers' options,
    adding such a key to a row, wherever the row stands after the first,
    leaves unchanged what is written, and whether the stringifier ends. *)
Theorem unknown_keys_are_dropped (walk : Walk) (first row : Row)
    (before after : list Row) (key : string) (value : Value) :
  Forall (fun column => is_deep column = false) (keys first) →
  key ∉ keys first →
  Csv.run walk handler_options (first :: before ++ ((key, value) :: row) :: after)
  = Csv.run walk handler_options (first :: before ++ row :: after).
Proof.
  intros Hplain Hfresh.
  assert (Csv.stringify_record walk handler_options (keys first) ((key, value) :: row)
          = Csv.stringify_record walk handler_options (keys first) row) as Hsame.
  { unfold Csv.stringify_record. f_equal.
    apply list_fmap_ext. intros i other Hother.
    apply list_elem_of_lookup_2 in Hother.
    rewrite Forall_forall in Hplain.
    rewrite !get_not_deep by (by apply Hplain).
    rewrite own_other_key; [done |]. by intros ->. }
  destruct (first_write_columns walk handler_options first) as [Hcols Hoptions].
  destruct (fold_write_columns walk before _ _ Hcols) as [Hcols' Hoptions'].
  rewrite Hoptions in Hoptions'.
  unfold Csv.run. cbn [fold_left]. rewrite !fold_left_app. cbn [fold_left].
  rewrite (write_same_record walk _ (keys first) ((key, value) :: row) row Hcols');
    [done |].
  by rewrite Hoptions'.
Qed.

Lemma unknown_keys_are_dropped_witness :
  Csv.run no_walk handler_options
    (part_one ++ [[("note", VString "lost"); ("id", VNumber "3"); ("title", VString "c")]])
  = Csv.run no_walk handler_options (part_one ++ part_two).
Proof.
  assert ("note" ∉ keys [("id", VNumber "1"); ("title", VString "a")]) as Hfresh.
  { cbn. rewrite !not_elem_of_cons. by repeat split; try apply not_elem_of_nil. }
  assert (Forall (fun column => is_deep column = false)
            (keys [("id", VNumber "1"); ("title", VString "a")])) as Hplain.
  { by repeat constructor. }
  exact (unknown_keys_are_dropped no_walk
           [("id", VNumber "1"); ("title", VString "a")]
           [("id", VNumber "3"); ("title", VString "c")]
           [[("id", VNumber "2"); ("title", VNull)]] [] "note" (VString "lost")
           Hplain Hfresh).
Defined.

